(** * Wordle helper: feedback matching, dictionary filtering, input
      validation and the page's state handlers.

    The development follows the two halves of the application:

    - [Backend]: the Rust side (data model, [convert_letter_state],
      [Word::new], the pattern matcher and the dictionary filter);
    - [Frontend]: the TypeScript side (the zod schemas of [lib/types] and
      the handlers of [routes/+page.svelte]).

    Strings are sequences of 8-bit code units ([string]); a Rust [char]
    and a JavaScript one-unit string are both carried by [ascii]. *)

From Stdlib Require Import List String Ascii Bool Arith Lia.
From Stdlib Require Import Sorting.Sorted Sorting.Permutation.
From Stdlib Require OrderedTypeEx.
From stdpp Require Import gmap strings.
Import ListNotations.

Local Open Scope string_scope.
Local Open Scope list_scope.
Local Open Scope nat_scope.

(** ** Characters shared by both sides *)

Definition code (c : ascii) : nat := nat_of_ascii c.

(** [/^[a-z]$/] on one code unit. *)
Definition is_lower (c : ascii) : bool := (97 <=? code c) && (code c <=? 122).

(** [/^[A-Z]$/] on one code unit. *)
Definition is_upper (c : ascii) : bool := (65 <=? code c) && (code c <=? 90).

(** [/^[a-zA-Z]$/] on one code unit. *)
Definition is_alphabetic (c : ascii) : bool := is_lower c || is_upper c.

(** Lower-casing of one code unit: [A-Z] and the upper-case letters of the
    Latin-1 block (U+00C0..U+00DE without the multiplication sign U+00D7)
    move up by 32, every other unit is left alone. *)
Definition lower_unit (c : ascii) : ascii :=
  if is_upper c then ascii_of_nat (code c + 32)
  else if (192 <=? code c) && (code c <=? 222) && negb (code c =? 215)
       then ascii_of_nat (code c + 32)
       else c.

Fixpoint toLowerCase (s : string) : string :=
  match s with
  | EmptyString => EmptyString
  | String c s' => String (lower_unit c) (toLowerCase s')
  end.

(** ** The Rust side *)

Module Backend.

(** [pub enum LetterState { Unknown, Correct, Misplaced, Absent }] *)
Inductive LetterState : Set := Unknown | Correct | Misplaced | Absent.

Definition LetterState_eqb (a b : LetterState) : bool :=
  match a, b with
  | Unknown, Unknown | Correct, Correct
  | Misplaced, Misplaced | Absent, Absent => true
  | _, _ => false
  end.

(** [pub struct Letter { pub character: char, pub state: LetterState }] *)
Record Letter : Set := mkLetter { character : ascii; state : LetterState }.

(** [pub struct Word { letters: [Letter; 5] }]; the length is carried by
    [well_formed] rather than by the type. *)
Definition Word : Set := list Letter.

Definition WORD_LENGTH : nat := 5.

Definition well_formed (w : Word) : Prop := List.length w = WORD_LENGTH.

Definition chars (w : Word) : list ascii := map character w.
Definition states (w : Word) : list LetterState := map state w.

(** [fn convert_letter_state(state: &str) -> LetterState] *)
Definition convert_letter_state (label : string) : LetterState :=
  if String.eqb label "correct" then Correct
  else if String.eqb label "misplaced" then Misplaced
  else if String.eqb label "absent" then Absent
  else Unknown.

(** [Result<T, E>] *)
Inductive Result (T E : Type) : Type :=
| Ok (value : T)
| Err (error : E).
Arguments Ok {T E} value.
Arguments Err {T E} error.

(** The error of [Word::new]; the source carries a static message. *)
Inductive WordError : Set := InvalidWord (message : string).

(** Modelled from the spec: the part of [Word::new] after the length
    check, which the source elides as "Additional validation...": every
    character must be alphabetic, and the letters are stored lower-cased
    (with no feedback attached yet). The length check itself is the
    source's. *)
Definition Word_new (word : string) : Result Word WordError :=
  if negb (String.length word =? 5) then
    Err (InvalidWord "Word must be exactly 5 letters")
  else if negb (forallb is_alphabetic (list_ascii_of_string word)) then
    Err (InvalidWord "Word must contain only letters")
  else
    Ok (map (fun c => mkLetter (lower_unit c) Unknown)
            (list_ascii_of_string word)).

(** *** Pattern matcher *)

(** The per-character remaining-count multiset. *)
Definition remaining_count (remaining : gmap ascii nat) (ch : ascii) : nat :=
  default 0 (remaining !! ch).

Definition add_occurrence (remaining : gmap ascii nat) (ch : ascii)
  : gmap ascii nat :=
  <[ch := S (remaining_count remaining ch)]> remaining.

Definition consume (ch : ascii) (remaining : gmap ascii nat)
  : gmap ascii nat :=
  <[ch := pred (remaining_count remaining ch)]> remaining.

Definition letter_counts (candidate : list ascii) : gmap ascii nat :=
  fold_left add_occurrence candidate ∅.

(** Modelled from the spec: phase 1 of the matcher of [game_logic.rs]
    (absent from the sources): every position where the guess and the
    candidate agree is provisionally [Correct] and consumes one
    occurrence; the other positions stay unresolved ([None]). *)
Fixpoint phase1 (guess candidate : list ascii) (remaining : gmap ascii nat)
  : list (option LetterState) * gmap ascii nat :=
  match guess with
  | [] => ([], remaining)
  | g :: guess' =>
      match candidate with
      | c :: candidate' =>
          if Ascii.eqb g c then
            let '(provisional, remaining') :=
              phase1 guess' candidate' (consume g remaining) in
            (Some Correct :: provisional, remaining')
          else
            let '(provisional, remaining') :=
              phase1 guess' candidate' remaining in
            (None :: provisional, remaining')
      | [] =>
          let '(provisional, remaining') := phase1 guess' [] remaining in
          (None :: provisional, remaining')
      end
  end.

(** Modelled from the spec: phase 2 of the matcher: the unresolved
    positions, left to right, are [Misplaced] while an unconsumed
    occurrence remains (and consume it), [Absent] otherwise. *)
Fixpoint phase2 (guess : list ascii) (provisional : list (option LetterState))
                (remaining : gmap ascii nat) : list LetterState :=
  match guess, provisional with
  | g :: guess', Some s :: provisional' =>
      s :: phase2 guess' provisional' remaining
  | g :: guess', None :: provisional' =>
      if 0 <? remaining_count remaining g then
        Misplaced :: phase2 guess' provisional' (consume g remaining)
      else
        Absent :: phase2 guess' provisional' remaining
  | _, _ => []
  end.

Definition feedback (guess candidate : list ascii) : list LetterState :=
  let '(provisional, remaining) :=
    phase1 guess candidate (letter_counts candidate) in
  phase2 guess provisional remaining.

(** Position-by-position comparison of two state sequences. *)
Fixpoint same_states (computed declared : list LetterState) : bool :=
  match computed, declared with
  | [], [] => true
  | a :: computed', b :: declared' =>
      LetterState_eqb a b && same_states computed' declared'
  | _, _ => false
  end.

(** Modelled from the spec: the matcher that section 4.2 describes
    ([Word::matches_pattern] of [game_logic.rs] is absent from the
    sources; only its test and its callers are there): recompute the
    feedback the guess would receive against the candidate and compare it
    with the declared states. This is the spec's matcher, not the
    repository's: on "paper" against "happy" declared [Absent, Correct,
    Correct, Absent, Absent] it answers [false], where the repository's
    test [test_pattern_matching_duplicate_letters] expects [true]. *)
Definition matches (candidate guess : Word) : bool :=
  same_states (feedback (chars guess) (chars candidate)) (states guess).

(** *** The canonical scoring, as section 4.2 words it

    The multiset of the candidate's letters is a bag (a list up to
    order) from which single occurrences are removed. *)

Fixpoint remove_one (ch : ascii) (bag : list ascii) : list ascii :=
  match bag with
  | [] => []
  | x :: bag' => if Ascii.eqb ch x then bag' else x :: remove_one ch bag'
  end.

Definition occurs (ch : ascii) (bag : list ascii) : bool :=
  existsb (Ascii.eqb ch) bag.

Definition multiplicity (ch : ascii) (bag : list ascii) : nat :=
  List.length (List.filter (Ascii.eqb ch) bag).

(** A count map stands for a bag when it gives every character its
    multiplicity. *)
Definition represents (remaining : gmap ascii nat) (bag : list ascii) : Prop :=
  forall ch, remaining_count remaining ch = multiplicity ch bag.

(** Phase 1: the bag left once every exact position has consumed its
    character. *)
Fixpoint exact_leftover (guess candidate bag : list ascii) : list ascii :=
  match guess, candidate with
  | g :: guess', c :: candidate' =>
      if Ascii.eqb g c then exact_leftover guess' candidate' (remove_one g bag)
      else exact_leftover guess' candidate' bag
  | _, _ => bag
  end.

(** Phase 2, with the exact positions recognised on the way. *)
Fixpoint resolve (guess candidate bag : list ascii) : list LetterState :=
  match guess with
  | [] => []
  | g :: guess' =>
      let exact := match candidate with
                   | c :: _ => Ascii.eqb g c
                   | [] => false
                   end in
      if exact then Correct :: resolve guess' (tl candidate) bag
      else if occurs g bag then
             Misplaced :: resolve guess' (tl candidate) (remove_one g bag)
           else Absent :: resolve guess' (tl candidate) bag
  end.

Definition canonical_scoring (guess candidate : list ascii) : list LetterState :=
  resolve guess candidate (exact_leftover guess candidate candidate).

(** The positions where guess and candidate both carry [ch]. *)
Fixpoint exact_count (ch : ascii) (guess candidate : list ascii) : nat :=
  match guess, candidate with
  | g :: guess', c :: candidate' =>
      (if Ascii.eqb g c && Ascii.eqb ch g then 1 else 0)
      + exact_count ch guess' candidate'
  | _, _ => 0
  end.

(** The positions of the guess that carry [ch] and are scored [Correct]
    or [Misplaced]. *)
Fixpoint credited (ch : ascii) (guess : list ascii) (scored : list LetterState)
  : nat :=
  match guess, scored with
  | g :: guess', s :: scored' =>
      (if Ascii.eqb ch g
          && (LetterState_eqb s Correct || LetterState_eqb s Misplaced)
       then 1 else 0)
      + credited ch guess' scored'
  | _, _ => 0
  end.

(** *** Dictionary filter *)

(** Modelled from the spec: [filter_words] of [game_logic.rs] (absent
    from the sources; [filter_word_list] calls it), section 4.3: a
    candidate is kept iff it matches every guess of the history. *)
Definition filter_words (dictionary : list Word) (history : list Word)
  : list Word :=
  List.filter (fun candidate => forallb (matches candidate) history)
              dictionary.

(** The test inputs of [test_pattern_matching_duplicate_letters]. *)
Definition word_of (s : string) : Word :=
  map (fun c => mkLetter c Unknown) (list_ascii_of_string s).

Definition create_pattern (s : string) (sts : list LetterState) : Word :=
  map (fun p => mkLetter (fst p) (snd p))
      (combine (list_ascii_of_string s) sts).

Definition paper : Word := word_of "paper".

Definition happy_pattern : Word :=
  create_pattern "happy" [Absent; Correct; Correct; Absent; Absent].

Definition paper_all_correct : Word :=
  create_pattern "paper" [Correct; Correct; Correct; Correct; Correct].

Definition rapid : Word := word_of "rapid".

End Backend.


(** ** The TypeScript side *)

Module Frontend.

(** [{character: string, state: string}], before and after validation. *)
Record TLetter : Set := mkTLetter { character : string; state : string }.

Definition TWord : Set := list TLetter.

(** *** [lib/types]: the zod schemas

    [safeParse] is modelled by its outcome: [Some data] on success and
    [None] on failure (where [verif.data] is [undefined] and
    [verif.error] is set). *)

(** The labels of [LetterStateSchema]. *)
Definition state_labels : list string :=
  ["unknown"; "correct"; "misplaced"; "absent"].

(** The labels of [FinalLetterStateSchema]. *)
Definition final_state_labels : list string :=
  ["correct"; "misplaced"; "absent"].

(** [z.enum(["unknown", "correct", "misplaced", "absent"])] *)
Definition LetterStateSchema (v : string) : option string :=
  if existsb (String.eqb v) state_labels then Some v else None.

(** [z.enum(["correct", "misplaced", "absent"])] *)
Definition FinalLetterStateSchema (v : string) : option string :=
  if existsb (String.eqb v) final_state_labels then Some v else None.

(** [/^[a-zA-Z]$/.test(val)] *)
Definition single_letter (v : string) : bool :=
  match v with
  | String c EmptyString => is_alphabetic c
  | _ => false
  end.

(** [z.string().min(1).max(1).refine(/^[a-zA-Z]$/).transform(toLowerCase)] *)
Definition CharacterSchema (v : string) : option string :=
  if (1 <=? String.length v) && (String.length v <=? 1) && single_letter v
  then Some (toLowerCase v) else None.

(** [z.object({character: CharacterSchema, state: LetterStateSchema})] *)
Definition LetterSchema (l : TLetter) : option TLetter :=
  match CharacterSchema (character l), LetterStateSchema (state l) with
  | Some c, Some s => Some (mkTLetter c s)
  | _, _ => None
  end.

(** [z.array(LetterSchema).refine((letters) => letters.length === 5)] *)
Definition WordSchema (w : list TLetter) : option TWord :=
  match mapM LetterSchema w with
  | Some letters =>
      if List.length letters =? 5 then Some letters else None
  | None => None
  end.

(** [z.object({character: CharacterSchema, state: FinalLetterStateSchema})] *)
Definition FinalLetterSchema (l : TLetter) : option TLetter :=
  match CharacterSchema (character l), FinalLetterStateSchema (state l) with
  | Some c, Some s => Some (mkTLetter c s)
  | _, _ => None
  end.

(** [z.array(FinalLetterSchema).refine((letters) => letters.length === 5)] *)
Definition FinalWordSchema (w : list TLetter) : option TWord :=
  match mapM FinalLetterSchema w with
  | Some letters =>
      if List.length letters =? 5 then Some letters else None
  | None => None
  end.

(** [export const GuessesSchema = z.array(WordSchema)] *)
Definition GuessesSchema (guesses : list (list TLetter))
  : option (list TWord) :=
  mapM WordSchema guesses.

(** *** [Array.prototype] helpers *)

(** [a.includes(x)] on an array of strings. *)
Definition includes (a : list string) (x : string) : bool :=
  existsb (String.eqb x) a.

Fixpoint insert_sorted (x : string) (a : list string) : list string :=
  match a with
  | [] => [x]
  | y :: a' => if String.leb x y then x :: a else y :: insert_sorted x a'
  end.

(** [a.sort()] with the default comparator: ascending order of the code
    units. *)
Definition sort (a : list string) : list string :=
  fold_right insert_sorted [] a.

(** [a.join('')] *)
Definition join (a : list string) : string := String.concat "" a.

(** [s.split("")]: one one-unit string per code unit. *)
Definition split (s : string) : list string :=
  map (fun c => String c EmptyString) (list_ascii_of_string s).

(** [/^[a-z]+$/] *)
Definition lower_letters (s : string) : bool :=
  negb (String.eqb s "") && forallb is_lower (list_ascii_of_string s).

(** *** [routes/+page.svelte] *)

Record State : Set := mkState {
  guesses : list TWord;
  possibleMatches : list string
}.

(** What a handler does besides updating the state. *)
Inductive Effect : Set :=
| Alert (message : string)
| ConsoleError (message : string)
| Invoke (command : string) (patterns : option (list TWord)).

Definition blank_guess : TWord := repeat (mkTLetter "" "absent") 5.

Definition initial : State := mkState [blank_guess] [].

Definition filled (guess : TWord) : bool :=
  forallb (fun letter => negb (String.eqb (character letter) "")) guess.

(** [$derived(guesses.every((guess) => guess.every(...)))] *)
Definition allFilled (st : State) : bool := forallb filled (guesses st).

Definition addGuess (st : State) : State * list Effect :=
  if negb (allFilled st) then
    (st, [Alert "Please fill all letter boxes before adding a new guess."])
  else
    (mkState (guesses st ++ [blank_guess]) (possibleMatches st), []).

(** [guesses.filter((_, i) => i !== index)] *)
Fixpoint remove_at {A : Type} (index : nat) (a : list A) : list A :=
  match a with
  | [] => []
  | x :: a' =>
      match index with
      | O => a'
      | S index' => x :: remove_at index' a'
      end
  end.

(** The [await invoke(...)] of [deleteGuess]: the word whose membership
    is being asked, and the request sent. *)
Record Pending : Set := mkPending {
  deletedWord : string;
  request : Effect;
  onError : string
}.

(** [deleteGuess] up to its [await]. *)
Definition deleteGuess (index : nat) (st : State) : State * option Pending :=
  match nth_error (guesses st) index with
  | None => (st, None)
  | Some deletedGuess =>
      let deletedWord := toLowerCase (join (map character deletedGuess)) in
      let guesses' := remove_at index (guesses st) in
      let st' := mkState guesses' (possibleMatches st) in
      if (String.length deletedWord =? 5) && lower_letters deletedWord
         && negb (includes (possibleMatches st) deletedWord) then
        let remainingFilledGuesses := List.filter filled guesses' in
        if 0 <? List.length remainingFilledGuesses then
          match GuessesSchema remainingFilledGuesses with
          | Some data =>
              (st', Some (mkPending deletedWord
                            (Invoke "filter_word_list_command" (Some data))
                            "Error checking deleted word:"))
          | None => (st', None)
          end
        else
          (st', Some (mkPending deletedWord
                        (Invoke "filter_word_list_command" (Some []))
                        "Error checking if deleted word is valid:"))
      else (st', None)
  end.

(** [deleteGuess] after its [await]: [Some possibleWords] when the
    command answered, [None] when it threw. *)
Definition deleteGuess_resume (pending : Pending)
           (response : option (list string)) (st : State)
  : State * list Effect :=
  match response with
  | Some possibleWords =>
      if includes possibleWords (deletedWord pending) then
        (mkState (guesses st)
                 (sort (possibleMatches st ++ [deletedWord pending])), [])
      else (st, [])
  | None => (st, [ConsoleError (onError pending)])
  end.

Definition handleSubmit (st : State) : State * list Effect :=
  if negb (allFilled st) then
    (st, [Alert "Please fill all letter boxes before submitting."])
  else
    let verif := GuessesSchema (guesses st) in
    (st,
     match verif with
     | None => [ConsoleError "Invalid guesses:";
                Alert "Invalid guesses. Please check your input."]
     | Some _ => []
     end ++ [Invoke "filter_word_list_command" verif]).

(** The [.then] callback of [handleSubmit]. *)
Definition handleSubmit_then (possibleWords : list string) (st : State)
  : State :=
  mkState (guesses st) (sort possibleWords).

(** [guesses.some((guess) => guess[position]?.character.toLowerCase()
    === lowerChar && guess[position]?.state === "correct")] *)
Definition correctAtThisPosition (guesses : list TWord) (position : nat)
           (lowerChar : string) : bool :=
  existsb (fun guess =>
             match nth_error guess position with
             | Some letter =>
                 String.eqb (toLowerCase (character letter)) lowerChar
                 && String.eqb (state letter) "correct"
             | None => false
             end) guesses.

(** [a.map((char, position) => ...)] from index [position] on. *)
Fixpoint newGuess_from (guesses : list TWord) (position : nat)
         (chars : list string) : TWord :=
  match chars with
  | [] => []
  | char :: chars' =>
      let lowerChar := toLowerCase char in
      (if correctAtThisPosition guesses position lowerChar
       then mkTLetter char "correct"
       else mkTLetter char "absent")
      :: newGuess_from guesses (S position) chars'
  end.

Definition addWordAsGuess (word : string) (st : State) : State * list Effect :=
  if 5 <=? List.length (guesses st) then
    (st, [Alert "Maximum number of guesses reached (5)."])
  else
    let newGuess := newGuess_from (guesses st) 0 (split word) in
    (mkState (guesses st ++ [newGuess])
             (sort (List.filter (fun match_ => negb (String.eqb match_ word))
                                (possibleMatches st))),
     []).

(** The page's events, and what each does to the state. *)
Inductive Event : Set :=
| AddGuess
| DeleteGuess (index : nat)
| DeleteGuessAnswer (pending : Pending) (response : option (list string))
| Submit
| SubmitAnswer (possibleWords : list string)
| AddWordAsGuess (word : string).

Definition handle (e : Event) (st : State) : State :=
  match e with
  | AddGuess => fst (addGuess st)
  | DeleteGuess index => fst (deleteGuess index st)
  | DeleteGuessAnswer pending response =>
      fst (deleteGuess_resume pending response st)
  | Submit => fst (handleSubmit st)
  | SubmitAnswer possibleWords => handleSubmit_then possibleWords st
  | AddWordAsGuess word => fst (addWordAsGuess word st)
  end.

(** The states the page can reach from its initial one. *)
Inductive reachable : State -> Prop :=
| reachable_initial : reachable initial
| reachable_handle e st : reachable st -> reachable (handle e st).

(** Ascending order of the code units, neighbour by neighbour. *)
Definition ascending (a : list string) : Prop :=
  Sorted (fun x y => String.leb x y = true) a.

(** *** [lib/components/WordGuess.svelte]

    The component edits the guess it is bound to ([bind:word]); a handler
    answers [None] where the script throws (reading [word[index]] out of
    range gives [undefined]). *)

(** [stateOrder] of [cycleLetterState]. *)
Definition stateOrder : list string :=
  ["unknown"; "correct"; "misplaced"; "absent"].

(** [a.indexOf(x)]: the first index holding [x], or -1. *)
Fixpoint indexOf (a : list string) (x : string) : Z :=
  match a with
  | [] => (-1)%Z
  | y :: a' =>
      if String.eqb y x then 0%Z
      else let i := indexOf a' x in
           if (i <? 0)%Z then (-1)%Z else (i + 1)%Z
  end.

(** [cycleLetterState(index)]: [(currentIndex + 1) % stateOrder.length]
    is always an index of [stateOrder]. *)
Definition cycleLetterState (index : nat) (word : TWord) : option TWord :=
  match nth_error word index with
  | None => None
  | Some letter =>
      let currentIndex := indexOf stateOrder (state letter) in
      let nextIndex :=
        Z.rem (currentIndex + 1) (Z.of_nat (List.length stateOrder)) in
      Some (<[index := mkTLetter (character letter)
                                 (nth (Z.to_nat nextIndex) stateOrder "")]>
              word)
  end.

(** [value[value.length - 1]] *)
Fixpoint last_unit (value : string) : option ascii :=
  match value with
  | EmptyString => None
  | String c EmptyString => Some c
  | String _ value' => last_unit value'
  end.

(** [handleInput(index, event)], where [value] is
    [input.value.toUpperCase()]; moving the focus and clearing the input
    box leave the word alone. *)
Definition handleInput (index : nat) (value : string) (word : TWord)
  : option TWord :=
  if 0 <? String.length value then
    match last_unit value with
    | Some letter =>
        if is_upper letter then
          match nth_error word index with
          | Some old =>
              Some (<[index := mkTLetter (String letter EmptyString)
                                         (state old)]> word)
          | None => None
          end
        else Some word
    | None => Some word
    end
  else Some word.

(** *** The page as the user drives it *)

(** A handler of the component instance [key], run on [guesses[key]]; the
    state stays as it is when there is no such guess or the handler throws. *)
Definition on_guess (key : nat) (handler : TWord -> option TWord) (st : State)
  : State :=
  match nth_error (guesses st) key with
  | Some word =>
      match handler word with
      | Some word' => mkState (<[key := word']> (guesses st)) (possibleMatches st)
      | None => st
      end
  | None => st
  end.

Inductive UiEvent : Set :=
| Page (e : Event)
| CycleLetterState (key index : nat)
| HandleInput (key index : nat) (value : string).

Definition ui_handle (e : UiEvent) (st : State) : State :=
  match e with
  | Page e' => handle e' st
  | CycleLetterState key index => on_guess key (cycleLetterState index) st
  | HandleInput key index value => on_guess key (handleInput index value) st
  end.

(** What the markup offers in a state: the "Add Guess" button while
    [guesses.length < 4]; the delete button of a row unless
    [index !== guesses.length - 1 || guesses.length <= 1]; one button per
    listed word; a letter box per letter of each guess. The answers of the
    command may come at any time. *)
Definition offered (e : UiEvent) (st : State) : bool :=
  match e with
  | Page AddGuess => List.length (guesses st) <? 4
  | Page (DeleteGuess index) =>
      negb (negb (index =? List.length (guesses st) - 1)
            || (List.length (guesses st) <=? 1))
  | Page (AddWordAsGuess word) => includes (possibleMatches st) word
  | Page Submit => true
  | Page (SubmitAnswer _) => true
  | Page (DeleteGuessAnswer _ _) => true
  | CycleLetterState key index | HandleInput key index _ =>
      match nth_error (guesses st) key with
      | Some word => index <? List.length word
      | None => false
      end
  end.

(** The states the user can bring the page to. *)
Inductive ui_reachable : State -> Prop :=
| ui_reachable_initial : ui_reachable initial
| ui_reachable_step e st :
    ui_reachable st -> offered e st = true -> ui_reachable (ui_handle e st).

(** A letter as the page holds it: at most one code unit, and one of the
    four labels. *)
Definition well_shaped (letter : TLetter) : Prop :=
  String.length (character letter) <= 1 /\ In (state letter) state_labels.

(** What the schemas make of a letter they accept. *)
Definition normalize (letter : TLetter) : TLetter :=
  mkTLetter (toLowerCase (character letter)) (state letter).

(** What the schemas accept in a letter. *)
Definition valid_letter (letter : TLetter) : Prop :=
  single_letter (character letter) = true /\ In (state letter) state_labels.

Definition valid_guess (guess : list TLetter) : Prop :=
  List.length guess = 5 /\ Forall valid_letter guess.

End Frontend.


(** * Properties *)

Ltac case_ifs :=
  repeat match goal with
         | |- context [if ?b then _ else _] => destruct b eqn:?
         end.

(** ** The matcher *)

Section Matcher.
Import Backend.

Lemma remaining_count_insert (m : gmap ascii nat) (ch x : ascii) (n : nat) :
  remaining_count (<[ch := n]> m) x
  = if Ascii.eqb ch x then n else remaining_count m x.
Proof.
  unfold remaining_count. rewrite lookup_insert.
  destruct (Ascii.eqb_spec ch x) as [->|Hne].
  - rewrite decide_True by reflexivity. reflexivity.
  - rewrite decide_False by assumption. reflexivity.
Qed.

Lemma remaining_count_consume (m : gmap ascii nat) (ch x : ascii) :
  remaining_count (consume ch m) x
  = if Ascii.eqb ch x then pred (remaining_count m ch)
    else remaining_count m x.
Proof. apply remaining_count_insert. Qed.

Lemma remaining_count_add (m : gmap ascii nat) (ch x : ascii) :
  remaining_count (add_occurrence m ch) x
  = if Ascii.eqb ch x then S (remaining_count m ch)
    else remaining_count m x.
Proof. apply remaining_count_insert. Qed.

Lemma multiplicity_cons (x ch : ascii) (bag : list ascii) :
  multiplicity x (ch :: bag)
  = if Ascii.eqb x ch then S (multiplicity x bag) else multiplicity x bag.
Proof. unfold multiplicity. simpl. destruct (Ascii.eqb x ch); reflexivity. Qed.

Lemma fold_add_count (l : list ascii) :
  forall (m : gmap ascii nat) (x : ascii),
    remaining_count (fold_left add_occurrence l m) x
    = multiplicity x l + remaining_count m x.
Proof.
  induction l as [|ch l IH]; intros m x; simpl.
  - reflexivity.
  - rewrite IH, remaining_count_add, multiplicity_cons.
    rewrite (Ascii.eqb_sym x ch).
    destruct (Ascii.eqb_spec ch x) as [->|Hne]; lia.
Qed.

Lemma letter_counts_represents (candidate : list ascii) :
  represents (letter_counts candidate) candidate.
Proof.
  intros ch. unfold letter_counts. rewrite fold_add_count.
  unfold remaining_count. rewrite lookup_empty. simpl. lia.
Qed.

Lemma multiplicity_remove_one (ch x : ascii) (bag : list ascii) :
  multiplicity x (remove_one ch bag)
  = if Ascii.eqb ch x then pred (multiplicity ch bag) else multiplicity x bag.
Proof.
  induction bag as [|y bag IH]; simpl.
  - destruct (Ascii.eqb ch x); reflexivity.
  - destruct (Ascii.eqb_spec ch y) as [->|Hy].
    + rewrite !multiplicity_cons, Ascii.eqb_refl. simpl.
      rewrite (Ascii.eqb_sym x y).
      destruct (Ascii.eqb_spec y x) as [->|Hx]; reflexivity.
    + rewrite !multiplicity_cons, IH.
      destruct (Ascii.eqb_spec ch x) as [->|Hx].
      * destruct (Ascii.eqb_spec x y) as [->|_]; [contradiction|reflexivity].
      * reflexivity.
Qed.

Lemma consume_represents (ch : ascii) (m : gmap ascii nat) (bag : list ascii) :
  represents m bag -> represents (consume ch m) (remove_one ch bag).
Proof.
  intros H x. rewrite remaining_count_consume, multiplicity_remove_one, !H.
  reflexivity.
Qed.

Lemma occurs_multiplicity (ch : ascii) (bag : list ascii) :
  occurs ch bag = (0 <? multiplicity ch bag).
Proof.
  induction bag as [|y bag IH]; simpl.
  - reflexivity.
  - rewrite multiplicity_cons, IH.
    destruct (Ascii.eqb ch y); reflexivity.
Qed.

Lemma phase1_leftover (guess : list ascii) :
  forall (candidate : list ascii) (m : gmap ascii nat) (bag : list ascii),
    represents m bag ->
    represents (snd (phase1 guess candidate m))
               (exact_leftover guess candidate bag).
Proof.
  induction guess as [|g guess IH]; intros candidate m bag H; simpl.
  - assumption.
  - destruct candidate as [|c candidate].
    + specialize (IH [] m bag H).
      destruct (phase1 guess [] m) as [p r]. simpl in *.
      destruct guess; assumption.
    + destruct (Ascii.eqb g c).
      * specialize (IH candidate _ _ (consume_represents g m bag H)).
        destruct (phase1 guess candidate (consume g m)). assumption.
      * specialize (IH candidate m bag H).
        destruct (phase1 guess candidate m). assumption.
Qed.

Lemma phase2_resolve (guess : list ascii) :
  forall (candidate : list ascii) (m0 m : gmap ascii nat) (bag : list ascii),
    represents m bag ->
    phase2 guess (fst (phase1 guess candidate m0)) m
    = resolve guess candidate bag.
Proof.
  induction guess as [|g guess IH]; intros candidate m0 m bag H; simpl.
  - reflexivity.
  - destruct candidate as [|c candidate]; simpl.
    + specialize (IH [] m0).
      destruct (phase1 guess [] m0) as [p r]. simpl in *.
      rewrite occurs_multiplicity, <- H.
      destruct (0 <? remaining_count m g); f_equal.
      * apply IH, consume_represents, H.
      * apply IH, H.
    + destruct (Ascii.eqb g c).
      * specialize (IH candidate (consume g m0)).
        destruct (phase1 guess candidate (consume g m0)). simpl in *.
        f_equal. apply IH, H.
      * specialize (IH candidate m0).
        destruct (phase1 guess candidate m0). simpl in *.
        rewrite occurs_multiplicity, <- H.
        destruct (0 <? remaining_count m g); f_equal.
        -- apply IH, consume_represents, H.
        -- apply IH, H.
Qed.

(** The count-map matcher computes the canonical scoring. *)
Lemma feedback_canonical (guess candidate : list ascii) :
  feedback guess candidate = canonical_scoring guess candidate.
Proof.
  unfold feedback, canonical_scoring.
  pose proof (phase1_leftover guess candidate _ _
                (letter_counts_represents candidate)) as Hleft.
  pose proof (phase2_resolve guess candidate (letter_counts candidate)) as Hres.
  destruct (phase1 guess candidate (letter_counts candidate)) as [p r].
  simpl in *. apply Hres, Hleft.
Qed.

Lemma LetterState_eqb_eq (a b : LetterState) :
  LetterState_eqb a b = true <-> a = b.
Proof. destruct a, b; simpl; split; intros H; congruence. Qed.

Lemma same_states_eq (computed : list LetterState) :
  forall declared, same_states computed declared = true <-> computed = declared.
Proof.
  induction computed as [|a computed IH]; intros [|b declared]; simpl;
    try (split; intros H; congruence).
  rewrite andb_true_iff, LetterState_eqb_eq, IH.
  split; [intros [-> ->]; reflexivity | intros H; inversion H; auto].
Qed.

Lemma nth_error_ext {A : Type} (l : list A) :
  forall l', (forall i, nth_error l i = nth_error l' i) -> l = l'.
Proof.
  induction l as [|x l IH]; intros [|y l'] H.
  - reflexivity.
  - specialize (H 0). discriminate.
  - specialize (H 0). discriminate.
  - pose proof (H 0) as H0. simpl in H0. injection H0 as ->.
    f_equal. apply IH. intros i. apply (H (S i)).
Qed.

End Matcher.

Section Scoring.
Import Backend.

Lemma resolve_length (guess : list ascii) :
  forall candidate bag,
    List.length (resolve guess candidate bag) = List.length guess.
Proof.
  induction guess as [|g guess IH]; intros candidate bag; simpl.
  - reflexivity.
  - destruct candidate as [|c candidate]; simpl;
      case_ifs;
      simpl; rewrite IH; reflexivity.
Qed.

(** The scoring gives every position of the guess one finalized state. *)
Lemma canonical_scoring_finalized (guess candidate : list ascii) :
  List.length (canonical_scoring guess candidate) = List.length guess
  /\ ~ In Unknown (canonical_scoring guess candidate).
Proof.
  split; [apply resolve_length|].
  unfold canonical_scoring.
  generalize (exact_leftover guess candidate candidate) as bag.
  revert candidate.
  induction guess as [|g guess IH]; intros candidate bag; simpl.
  - tauto.
  - destruct candidate as [|c candidate]; simpl;
      case_ifs;
      simpl; intros [H|H]; try discriminate; eapply IH; exact H.
Qed.

(** A position is scored [Correct] exactly when guess and candidate agree
    there. *)
Lemma resolve_correct_iff (guess : list ascii) :
  forall candidate bag i,
    nth_error (resolve guess candidate bag) i = Some Correct
    <-> exists ch, nth_error guess i = Some ch /\ nth_error candidate i = Some ch.
Proof.
  induction guess as [|g guess IH]; intros candidate bag i.
  - simpl. destruct i; simpl; split;
      [discriminate | intros (ch & H & _); discriminate
      | discriminate | intros (ch & H & _); discriminate].
  - destruct i as [|i].
    + destruct candidate as [|c candidate]; simpl.
      * destruct (occurs g bag); simpl; split;
          try discriminate; intros (ch & _ & H); discriminate.
      * destruct (Ascii.eqb_spec g c) as [->|Hne]; simpl.
        -- split; [intros _; exists c; auto | reflexivity].
        -- destruct (occurs g bag); simpl; split; try discriminate;
             intros (ch & H1 & H2); congruence.
    + assert (Htl : forall k, nth_error candidate (S k)
                              = nth_error (tl candidate) k)
        by (intros k; destruct candidate; [destruct k|]; reflexivity).
      rewrite Htl. simpl.
      case_ifs;
        simpl; apply IH.
Qed.

(** Phase 1 takes out of the bag one occurrence per exact position, as
    long as the bag holds the candidate's letters still to come. *)
Lemma exact_leftover_multiplicity (guess : list ascii) :
  forall candidate bag,
    (forall ch, multiplicity ch candidate <= multiplicity ch bag) ->
    forall ch,
      multiplicity ch (exact_leftover guess candidate bag)
      + exact_count ch guess candidate
      = multiplicity ch bag.
Proof.
  induction guess as [|g guess IH]; intros candidate bag Hinv ch; simpl.
  - lia.
  - destruct candidate as [|c candidate]; [lia|].
    destruct (Ascii.eqb_spec g c) as [->|Hne]; simpl.
    + assert (Hinv' : forall x, multiplicity x candidate
                                <= multiplicity x (remove_one c bag)).
      { intros x. rewrite multiplicity_remove_one.
        specialize (Hinv x). rewrite multiplicity_cons in Hinv.
        rewrite (Ascii.eqb_sym x c) in Hinv.
        destruct (Ascii.eqb_spec c x) as [->|Hx]; lia. }
      specialize (IH candidate (remove_one c bag) Hinv' ch).
      rewrite multiplicity_remove_one in IH.
      specialize (Hinv ch). rewrite multiplicity_cons in Hinv.
      rewrite (Ascii.eqb_sym ch c) in *.
      destruct (Ascii.eqb_spec c ch) as [->|Hc]; lia.
    + assert (Hinv' : forall x, multiplicity x candidate <= multiplicity x bag).
      { intros x. specialize (Hinv x). rewrite multiplicity_cons in Hinv.
        destruct (Ascii.eqb x c); lia. }
      specialize (IH candidate bag Hinv' ch). lia.
Qed.

(** Phase 2 credits a letter at most as often as the bag holds it. *)
Lemma resolve_credited (guess : list ascii) :
  forall candidate bag ch,
    credited ch guess (resolve guess candidate bag)
    <= exact_count ch guess candidate + multiplicity ch bag.
Proof.
  induction guess as [|g guess IH]; intros candidate bag ch; simpl.
  - lia.
  - destruct candidate as [|c candidate]; simpl.
    + assert (Hnil : forall l, exact_count ch l [] = 0) by (intros []; reflexivity).
      destruct (occurs g bag) eqn:Hocc; simpl.
      * specialize (IH [] (remove_one g bag) ch).
        rewrite Hnil, multiplicity_remove_one in IH.
        rewrite occurs_multiplicity in Hocc. apply Nat.ltb_lt in Hocc.
        rewrite (Ascii.eqb_sym ch g), andb_true_r.
        destruct (Ascii.eqb_spec g ch) as [->|Hg]; simpl; lia.
      * specialize (IH [] bag ch). rewrite Hnil in IH.
        rewrite andb_false_r. simpl. lia.
    + destruct (Ascii.eqb_spec g c) as [->|Hne]; simpl.
      * specialize (IH candidate bag ch).
        rewrite andb_true_r. destruct (Ascii.eqb ch c); simpl; lia.
      * destruct (occurs g bag) eqn:Hocc; simpl.
        -- specialize (IH candidate (remove_one g bag) ch).
           rewrite multiplicity_remove_one in IH.
           rewrite occurs_multiplicity in Hocc. apply Nat.ltb_lt in Hocc.
           rewrite (Ascii.eqb_sym ch g), andb_true_r.
           destruct (Ascii.eqb_spec g ch) as [->|Hg]; simpl; lia.
        -- specialize (IH candidate bag ch).
           rewrite andb_false_r. simpl. lia.
Qed.

(** The consumption discipline: a letter is credited ([Correct] or
    [Misplaced]) at no more positions of the guess than the candidate has
    occurrences of it. *)
Lemma scoring_respects_multiplicity (guess candidate : list ascii) (ch : ascii) :
  credited ch guess (canonical_scoring guess candidate)
  <= multiplicity ch candidate.
Proof.
  unfold canonical_scoring.
  pose proof (resolve_credited guess candidate
                (exact_leftover guess candidate candidate) ch) as H.
  pose proof (exact_leftover_multiplicity guess candidate candidate
                (fun x => Nat.le_refl _) ch) as E.
  lia.
Qed.

(** The matcher of section 4.2, with its remaining-count map, answers
    true exactly when the two-phase scoring over the bag of the candidate's
    letters (exact positions first, each consuming its character; then the
    unresolved positions left to right, Misplaced while an unconsumed
    occurrence remains, Absent otherwise) gives, position by position, the
    states the guess declares. This is a fact about the spec's matcher
    only; the repository's matcher is not in the sources. *)
Theorem matches_iff_canonical_scoring (candidate guess : Word) :
  matches candidate guess = true
  <-> forall i : nat,
        nth_error (canonical_scoring (chars guess) (chars candidate)) i
        = nth_error (states guess) i.
Proof.
  unfold matches. rewrite same_states_eq, feedback_canonical.
  split.
  - intros -> i. reflexivity.
  - apply nth_error_ext.
Qed.

(** The canonical scoring of "happy" against "paper" marks the second
    'p' Misplaced (one 'p' of "paper" is still unconsumed after the exact
    positions), so the matcher of section 4.2 answers false on the states
    [Absent, Correct, Correct, Absent, Absent] that the repository's test
    declares: section 4.2 and that test cannot both describe the
    repository's matcher. *)
Theorem happy_against_paper :
  canonical_scoring (chars happy_pattern) (chars paper)
  = [Absent; Correct; Correct; Misplaced; Absent]
  /\ states happy_pattern = [Absent; Correct; Correct; Absent; Absent]
  /\ matches paper happy_pattern = false.
Proof. vm_compute. repeat split. Qed.

(** The edge cases of the scoring: a guess equal to the candidate, a guess
    sharing no letter with it, an anagram with no letter in place, and a
    repeated letter of which the candidate has one occurrence. *)
Example scoring_all_correct :
  feedback (list_ascii_of_string "paper") (list_ascii_of_string "paper")
  = [Correct; Correct; Correct; Correct; Correct].
Proof. reflexivity. Qed.

Example scoring_all_absent :
  feedback (list_ascii_of_string "cloud") (list_ascii_of_string "paper")
  = [Absent; Absent; Absent; Absent; Absent].
Proof. reflexivity. Qed.

Example scoring_all_misplaced :
  feedback (list_ascii_of_string "tales") (list_ascii_of_string "least")
  = [Misplaced; Misplaced; Misplaced; Misplaced; Misplaced].
Proof. reflexivity. Qed.

Example scoring_repeated_letter :
  feedback (list_ascii_of_string "allot") (list_ascii_of_string "rapid")
  = [Misplaced; Absent; Absent; Absent; Absent]
  /\ matches rapid (create_pattern "allot"
                      [Misplaced; Absent; Absent; Absent; Absent]) = true
  /\ matches rapid (create_pattern "lolly"
                      [Absent; Absent; Absent; Absent; Absent]) = true
  /\ matches (word_of "solid")
             (create_pattern "lolly"
                [Misplaced; Correct; Misplaced; Absent; Absent]) = false.
Proof. repeat split; reflexivity. Qed.

(** No function can both agree with the canonical scoring everywhere and
    accept the declared states of the "happy" test against "paper". *)
Lemma canonical_excludes_happy_test (matcher : Word -> Word -> bool) :
  (forall candidate guess,
      matcher candidate guess = true
      <-> canonical_scoring (chars guess) (chars candidate) = states guess) ->
  matcher paper happy_pattern = false.
Proof.
  intros H. destruct (matcher paper happy_pattern) eqn:E; [|reflexivity].
  apply H in E. vm_compute in E. discriminate.
Qed.

End Scoring.

(** ** The dictionary filter *)

Section Filter.
Import Backend.

Lemma filter_words_In (dictionary history : list Word) (w : Word) :
  In w (filter_words dictionary history)
  <-> In w dictionary /\ forall g, In g history -> matches w g = true.
Proof.
  unfold filter_words. rewrite filter_In, forallb_forall. reflexivity.
Qed.

(** C4. Filtering with an empty guess history returns the dictionary
    itself. *)
Theorem filter_words_empty_history (dictionary : list Word) :
  filter_words dictionary [] = dictionary.
Proof.
  unfold filter_words. simpl.
  induction dictionary as [|w dictionary IH]; simpl; [|rewrite IH]; reflexivity.
Qed.

(** C5. Appending a guess to the history never adds a word to the result:
    every word that survives [history ++ [g]] survives [history]. *)
Theorem filter_words_monotone (dictionary history : list Word) (g w : Word) :
  In w (filter_words dictionary (history ++ [g])) ->
  In w (filter_words dictionary history).
Proof.
  rewrite !filter_words_In. intros [Hd Hall]. split; [assumption|].
  intros g' Hg'. apply Hall, in_or_app. left. assumption.
Qed.

Lemma filter_words_monotone_witness :
  filter_words [rapid; paper] ([happy_pattern] ++ [paper_all_correct]) = []
  /\ filter_words [rapid; paper] ([] ++ [paper_all_correct]) = [paper]
  /\ In paper (filter_words [rapid; paper] []).
Proof.
  assert (H : filter_words [rapid; paper] ([] ++ [paper_all_correct]) = [paper])
    by reflexivity.
  split; [reflexivity|]. split; [exact H|].
  apply (filter_words_monotone [rapid; paper] [] paper_all_correct paper).
  rewrite H. left. reflexivity.
Defined.

(** Appending a guess filters the previous result once more. *)
Lemma filter_words_snoc (dictionary history : list Word) (g : Word) :
  filter_words dictionary (history ++ [g])
  = List.filter (fun candidate => matches candidate g)
                (filter_words dictionary history).
Proof.
  unfold filter_words.
  induction dictionary as [|w dictionary IH]; simpl; [reflexivity|].
  rewrite forallb_app. simpl. rewrite andb_true_r.
  destruct (forallb (matches w) history); simpl.
  - destruct (matches w g); rewrite IH; reflexivity.
  - exact IH.
Qed.

End Filter.

(** ** Characters *)

Section Characters.

Lemma lower_unit_alphabetic (c : ascii) :
  is_alphabetic c = true -> is_lower (lower_unit c) = true.
Proof.
  destruct c as [[] [] [] [] [] [] [] []]; vm_compute; congruence.
Qed.

Lemma length_list_ascii_of_string (s : string) :
  List.length (list_ascii_of_string s) = String.length s.
Proof. induction s as [|c s IH]; simpl; [|rewrite IH]; reflexivity. Qed.

End Characters.

(** ** [Word::new] *)

Section WordNew.
Import Backend.

Lemma forallb_Forall {A : Type} (f : A -> bool) (l : list A) :
  forallb f l = true <-> Forall (fun x => f x = true) l.
Proof. rewrite forallb_forall, List.Forall_forall. reflexivity. Qed.

Lemma Word_new_cases (s : string) :
  (String.length s = 5
   /\ Forall (fun c => is_alphabetic c = true) (list_ascii_of_string s)
   /\ Word_new s = Ok (map (fun c => mkLetter (lower_unit c) Unknown)
                           (list_ascii_of_string s)))
  \/ (~ (String.length s = 5
         /\ Forall (fun c => is_alphabetic c = true) (list_ascii_of_string s))
      /\ exists message, Word_new s = Err (InvalidWord message)).
Proof.
  unfold Word_new.
  destruct (Nat.eqb_spec (String.length s) 5) as [Hlen|Hlen]; simpl.
  - destruct (forallb is_alphabetic (list_ascii_of_string s)) eqn:Halpha; simpl.
    + left. rewrite <- forallb_Forall. auto.
    + right. split; [|eexists; reflexivity].
      intros [_ Hall]. apply forallb_Forall in Hall. congruence.
  - right. split; [|eexists; reflexivity]. intros [Hl _]. contradiction.
Qed.

(** C6. [Word::new] succeeds exactly on the strings of length 5 whose
    characters are all alphabetic; the word it builds has the five
    characters of the input in lower case; on every other string it fails
    with an [InvalidWord] error. *)
Theorem Word_new_contract (s : string) :
  ((exists w, Word_new s = Ok w)
   <-> String.length s = 5
       /\ Forall (fun c => is_alphabetic c = true) (list_ascii_of_string s))
  /\ (forall w, Word_new s = Ok w ->
        chars w = map lower_unit (list_ascii_of_string s)
        /\ well_formed w
        /\ Forall (fun c => is_lower c = true) (chars w))
  /\ (~ (String.length s = 5
         /\ Forall (fun c => is_alphabetic c = true) (list_ascii_of_string s)) ->
      exists message, Word_new s = Err (InvalidWord message)).
Proof.
  destruct (Word_new_cases s) as [(Hlen & Hall & Hok)|(Hn & message & Herr)].
  - split; [|split].
    + split; [intros _; split; assumption | intros _; eexists; exact Hok].
    + intros w Hw. rewrite Hok in Hw. injection Hw as <-.
      unfold chars, well_formed, WORD_LENGTH.
      rewrite map_map, length_map, length_list_ascii_of_string. simpl.
      split; [reflexivity|split; [assumption|]].
      apply List.Forall_forall. intros c Hc. apply in_map_iff in Hc.
      destruct Hc as (c0 & <- & Hc0).
      apply lower_unit_alphabetic.
      exact (proj1 (List.Forall_forall _ _) Hall c0 Hc0).
    + intros Hn. exfalso. apply Hn. split; assumption.
  - split; [|split].
    + split; [intros [w Hw]; congruence | intros H; contradiction].
    + intros w Hw. congruence.
    + intros _. exists message. exact Herr.
Qed.

Lemma Word_new_contract_witness :
  (exists w, Word_new "PaPer" = Ok w)
  /\ chars paper = map lower_unit (list_ascii_of_string "PaPer")
  /\ exists message, Word_new "pap3r" = Err (InvalidWord message).
Proof.
  destruct (Word_new_contract "PaPer") as (Hiff & Hok & _).
  destruct (Word_new_contract "pap3r") as (_ & _ & Herr).
  split; [|split].
  - apply Hiff. split; [reflexivity|]. repeat constructor.
  - reflexivity.
  - apply Herr. intros [_ Hall].
    apply forallb_Forall in Hall. vm_compute in Hall. discriminate.
Defined.

End WordNew.

(** ** The zod schemas *)

Section Schemas.
Import Frontend.

Lemma CharacterSchema_Some (v out : string) :
  CharacterSchema v = Some out
  <-> exists c, v = String c EmptyString
                /\ is_alphabetic c = true
                /\ out = String (lower_unit c) EmptyString.
Proof.
  unfold CharacterSchema. split.
  - destruct v as [|c [|c' v]]; simpl; try discriminate.
    destruct (is_alphabetic c) eqn:E; simpl; [|discriminate].
    intros H. injection H as <-. exists c. auto.
  - intros (c & -> & Hc & ->). simpl. rewrite Hc. reflexivity.
Qed.

Lemma CharacterSchema_None (v : string) :
  CharacterSchema v = None
  <-> ~ exists c, v = String c EmptyString /\ is_alphabetic c = true.
Proof.
  split.
  - intros H (c & -> & Hc).
    assert (E : CharacterSchema (String c EmptyString)
                = Some (String (lower_unit c) EmptyString))
      by (apply CharacterSchema_Some; eauto).
    congruence.
  - intros H. destruct (CharacterSchema v) as [out|] eqn:E; [|reflexivity].
    apply CharacterSchema_Some in E. destruct E as (c & Hv & Hc & _).
    exfalso. apply H. eauto.
Qed.

(** C7. A letter input that is empty or longer than one character is
    rejected by [CharacterSchema], and a single alphabetic character is
    accepted and comes out in lower case. *)
Theorem CharacterSchema_boundary (v : string) :
  (v = EmptyString \/ 1 < String.length v -> CharacterSchema v = None)
  /\ (forall c, v = String c EmptyString -> is_alphabetic c = true ->
        CharacterSchema v = Some (String (lower_unit c) EmptyString)
        /\ is_lower (lower_unit c) = true).
Proof.
  split.
  - intros H. apply CharacterSchema_None. intros (c & -> & _).
    destruct H as [H|H]; [discriminate | simpl in H; lia].
  - intros c -> Hc. split.
    + apply CharacterSchema_Some. eauto.
    + apply lower_unit_alphabetic, Hc.
Qed.

Lemma CharacterSchema_boundary_witness :
  CharacterSchema "" = None
  /\ CharacterSchema "ab" = None
  /\ CharacterSchema "Q" = Some "q".
Proof.
  split; [|split].
  - apply (proj1 (CharacterSchema_boundary "")). left. reflexivity.
  - apply (proj1 (CharacterSchema_boundary "ab")). right. simpl. lia.
  - apply (proj2 (CharacterSchema_boundary "Q") "Q"%char); reflexivity.
Defined.

Lemma existsb_eqb_In (v : string) (labels : list string) :
  existsb (String.eqb v) labels = true <-> In v labels.
Proof.
  rewrite existsb_exists. split.
  - intros (x & Hx & E). apply String.eqb_eq in E. subst. assumption.
  - intros H. exists v. split; [assumption | apply String.eqb_refl].
Qed.

Lemma LetterStateSchema_Some (v out : string) :
  LetterStateSchema v = Some out <-> In v state_labels /\ out = v.
Proof.
  unfold LetterStateSchema.
  destruct (existsb (String.eqb v) state_labels) eqn:E.
  - apply existsb_eqb_In in E. split.
    + intros H. injection H as <-. auto.
    + intros [_ ->]. reflexivity.
  - split; [discriminate|]. intros [H _].
    apply existsb_eqb_In in H. congruence.
Qed.

Lemma LetterSchema_Some (l out : TLetter) :
  LetterSchema l = Some out
  <-> exists c, character l = String c EmptyString
                /\ is_alphabetic c = true
                /\ In (state l) state_labels
                /\ out = mkTLetter (String (lower_unit c) EmptyString) (state l).
Proof.
  unfold LetterSchema. split.
  - destruct (CharacterSchema (character l)) as [ch|] eqn:Ec; [|discriminate].
    destruct (LetterStateSchema (state l)) as [s|] eqn:Es; [|discriminate].
    intros H. injection H as <-.
    apply CharacterSchema_Some in Ec. destruct Ec as (c & Hv & Hc & ->).
    apply LetterStateSchema_Some in Es. destruct Es as [Hs ->].
    exists c. auto.
  - intros (c & Hv & Hc & Hs & ->).
    assert (Ec : CharacterSchema (character l)
                 = Some (String (lower_unit c) EmptyString))
      by (apply CharacterSchema_Some; eauto).
    assert (Es : LetterStateSchema (state l) = Some (state l))
      by (apply LetterStateSchema_Some; auto).
    rewrite Ec, Es. reflexivity.
Qed.

(** A state label outside the schema's four makes the whole parse fail. *)
Lemma GuessesSchema_rejects_label (guesses : list (list TLetter))
      (guess : list TLetter) (letter : TLetter) :
  In guess guesses -> In letter guess -> ~ In (state letter) state_labels ->
  GuessesSchema guesses = None.
Proof.
  intros Hg Hl Hs. unfold GuessesSchema.
  apply mapM_None, Exists_exists. exists guess.
  split; [apply list_elem_of_In; assumption|].
  unfold WordSchema.
  assert (E : mapM LetterSchema guess = None).
  { apply mapM_None, Exists_exists. exists letter.
    split; [apply list_elem_of_In; assumption|].
    destruct (LetterSchema letter) as [out|] eqn:E; [|reflexivity].
    apply LetterSchema_Some in E. destruct E as (c & _ & _ & Hin & _).
    contradiction. }
  rewrite E. reflexivity.
Qed.

End Schemas.

(** ** The validation boundary and the state labels *)

Section Boundary.
Import Frontend.

Lemma single_letter_inv (v : string) :
  single_letter v = true ->
  exists c, v = String c EmptyString /\ is_alphabetic c = true.
Proof.
  destruct v as [|c [|c' v]]; simpl; try discriminate.
  intros H. exists c. auto.
Qed.

Lemma LetterSchema_valid (l : TLetter) :
  single_letter (character l) = true -> In (state l) state_labels ->
  LetterSchema l = Some (mkTLetter (toLowerCase (character l)) (state l)).
Proof.
  intros Hc Hs. apply single_letter_inv in Hc. destruct Hc as (c & Hv & Hc).
  apply LetterSchema_Some. exists c. rewrite Hv. simpl. auto.
Qed.

Lemma mapM_all_Some {A B : Type} (f : A -> option B) (g : A -> B) (l : list A) :
  Forall (fun x => f x = Some (g x)) l -> mapM f l = Some (map g l).
Proof.
  intros H. apply mapM_Some_2.
  induction H as [|x l Hx _ IH]; simpl; constructor; assumption.
Qed.

Lemma WordSchema_valid (guess : list TLetter) :
  List.length guess = 5 ->
  Forall (fun letter => single_letter (character letter) = true
                        /\ In (state letter) state_labels) guess ->
  WordSchema guess
  = Some (map (fun l => mkTLetter (toLowerCase (character l)) (state l)) guess).
Proof.
  intros Hlen Hall. unfold WordSchema.
  rewrite (mapM_all_Some LetterSchema
             (fun l => mkTLetter (toLowerCase (character l)) (state l))).
  - rewrite length_map, Hlen. reflexivity.
  - eapply List.Forall_impl; [|exact Hall].
    intros l [Hc Hs]. apply LetterSchema_valid; assumption.
Qed.

(** [WordSchema] accepts exactly the arrays of five letters, each a single
    alphabetic character with one of the schema's four labels. *)
Lemma WordSchema_accepts_iff (guess : list TLetter) :
  (exists data, WordSchema guess = Some data)
  <-> List.length guess = 5
      /\ Forall (fun letter => single_letter (character letter) = true
                               /\ In (state letter) state_labels) guess.
Proof.
  split.
  - intros [data H]. unfold WordSchema in H.
    destruct (mapM LetterSchema guess) as [letters|] eqn:E; [|discriminate].
    apply mapM_Some_1 in E.
    destruct (Nat.eqb_spec (List.length letters) 5) as [Hlen|]; [|discriminate].
    split.
    + rewrite <- Hlen. apply (Forall2_length _ _ _ E).
    + clear H Hlen. induction E as [|l out guess letters Hl _ IH];
        constructor; [|exact IH].
      apply LetterSchema_Some in Hl. destruct Hl as (c & Hv & Hc & Hs & _).
      rewrite Hv. simpl. auto.
  - intros [Hlen Hall]. eexists. apply WordSchema_valid; assumption.
Qed.

(** Every guess of five letters whose labels are among the schema's four,
    "unknown" included, passes [GuessesSchema] with its labels unchanged. *)
Lemma GuessesSchema_accepts (guesses : list (list TLetter)) :
  Forall (fun guess =>
            List.length guess = 5
            /\ Forall (fun letter => single_letter (character letter) = true
                                     /\ In (state letter) state_labels) guess)
         guesses ->
  exists data, GuessesSchema guesses = Some data
               /\ map (map state) data = map (map state) guesses.
Proof.
  intros Hall.
  exists (map (map (fun l => mkTLetter (toLowerCase (character l)) (state l)))
              guesses).
  split.
  - unfold GuessesSchema. apply mapM_all_Some.
    eapply List.Forall_impl; [|exact Hall].
    intros guess [Hlen Hg]. apply WordSchema_valid; assumption.
  - rewrite map_map. apply map_ext. intros guess.
    rewrite map_map. reflexivity.
Qed.

(** The schema of finalized words, which [GuessesSchema] does not use,
    is the one that refuses "unknown". *)
Lemma FinalWordSchema_rejects_unknown (guess : list TLetter) (letter : TLetter) :
  In letter guess -> state letter = "unknown" -> FinalWordSchema guess = None.
Proof.
  intros Hin Hs. unfold FinalWordSchema.
  assert (E : mapM FinalLetterSchema guess = None).
  { apply mapM_None, Exists_exists. exists letter.
    split; [apply list_elem_of_In; assumption|].
    unfold FinalLetterSchema. rewrite Hs.
    destruct (CharacterSchema (character letter)); reflexivity. }
  rewrite E. reflexivity.
Qed.

Lemma convert_letter_state_Unknown (label : string) :
  Backend.convert_letter_state label = Backend.Unknown
  <-> ~ In label final_state_labels.
Proof.
  unfold Backend.convert_letter_state, final_state_labels. simpl.
  destruct (String.eqb_spec label "correct") as [->|H1];
    [split; [discriminate | intros H; exfalso; apply H; auto]|].
  destruct (String.eqb_spec label "misplaced") as [->|H2];
    [split; [discriminate | intros H; exfalso; apply H; auto]|].
  destruct (String.eqb_spec label "absent") as [->|H3];
    [split; [discriminate | intros H; exfalso; apply H; auto]|].
  split; [|reflexivity].
  intros _ [H|[H|[H|[]]]]; congruence.
Qed.

(** C3, as the code has it. [GuessesSchema] rejects a guess list as soon
    as one position carries a state label outside "unknown", "correct",
    "misplaced" and "absent"; guesses of five letters labelled within these
    four, "unknown" included, are accepted; and [convert_letter_state]
    raises nothing: it answers [Unknown] exactly on the labels other than
    "correct", "misplaced" and "absent". *)
Theorem boundary_state_labels :
  (forall (guesses : list (list TLetter)) guess letter,
      In guess guesses -> In letter guess ->
      ~ In (state letter) state_labels ->
      GuessesSchema guesses = None)
  /\ (forall guesses : list (list TLetter),
        Forall (fun guess =>
                  List.length guess = 5
                  /\ Forall (fun letter =>
                               single_letter (character letter) = true
                               /\ In (state letter) state_labels) guess)
               guesses ->
        exists data, GuessesSchema guesses = Some data
                     /\ map (map state) data = map (map state) guesses)
  /\ (forall label,
        Backend.convert_letter_state label = Backend.Unknown
        <-> ~ In label final_state_labels).
Proof.
  split; [|split].
  - apply GuessesSchema_rejects_label.
  - apply GuessesSchema_accepts.
  - apply convert_letter_state_Unknown.
Qed.

Lemma boundary_state_labels_witness :
  GuessesSchema [repeat (mkTLetter "a" "purple") 5] = None
  /\ (exists data, GuessesSchema [repeat (mkTLetter "a" "unknown") 5] = Some data)
  /\ Backend.convert_letter_state "purple" = Backend.Unknown.
Proof.
  destruct boundary_state_labels as (Hrej & Hacc & Hconv).
  split; [|split].
  - apply (Hrej _ (repeat (mkTLetter "a" "purple") 5) (mkTLetter "a" "purple"));
      [left; reflexivity | left; reflexivity |].
    unfold state_labels. simpl. intros [H|[H|[H|[H|[]]]]]; discriminate.
  - destruct (Hacc [repeat (mkTLetter "a" "unknown") 5]) as (data & Hd & _).
    + repeat constructor.
    + exists data. exact Hd.
  - apply Hconv. unfold final_state_labels. simpl.
    intros [H|[H|[H|[]]]]; discriminate.
Defined.

(** C3, as the claim states it, fails: a guess whose five positions carry
    "unknown" passes [GuessesSchema] unchanged, and the backend turns the
    label "unknown", like the unrecognised "purple", into [Unknown]
    without an error. *)
Lemma unknown_state_is_accepted :
  In "unknown" (map state (repeat (mkTLetter "a" "unknown") 5))
  /\ GuessesSchema [repeat (mkTLetter "a" "unknown") 5]
     = Some [repeat (mkTLetter "a" "unknown") 5]
  /\ Backend.convert_letter_state "unknown" = Backend.Unknown
  /\ Backend.convert_letter_state "purple" = Backend.Unknown.
Proof. vm_compute. auto. Qed.

End Boundary.

(** ** [handleSubmit] *)

Section Submit.
Import Frontend.

Lemma filled_false_WordSchema (guess : list TLetter) :
  filled guess = false -> WordSchema guess = None.
Proof.
  intros H. unfold WordSchema.
  assert (E : mapM LetterSchema guess = None).
  { apply mapM_None, Exists_exists.
    unfold filled in H.
    assert (Hex : exists letter, In letter guess /\ character letter = EmptyString).
    { induction guess as [|l guess IH]; simpl in H; [discriminate|].
      destruct (String.eqb_spec (character l) "") as [E|E]; simpl in H.
      - exists l. split; [left; reflexivity | assumption].
      - destruct (IH H) as (l' & Hin & Hl'). exists l'. split; [right|]; assumption. }
    destruct Hex as (letter & Hin & Hc). exists letter.
    split; [apply list_elem_of_In; assumption|].
    unfold LetterSchema. rewrite Hc. reflexivity. }
  rewrite E. reflexivity.
Qed.

(** A state with an empty letter box never passes [GuessesSchema]. *)
Lemma allFilled_false_GuessesSchema (st : State) :
  allFilled st = false -> GuessesSchema (guesses st) = None.
Proof.
  unfold allFilled, GuessesSchema. intros H.
  apply mapM_None, Exists_exists.
  induction (guesses st) as [|guess gs IH]; simpl in H; [discriminate|].
  destruct (filled guess) eqn:E; simpl in H.
  - destruct (IH H) as (g & Hin & Hg). exists g.
    split; [right|]; assumption.
  - exists guess. split; [left|apply filled_false_WordSchema; assumption].
Qed.

(** C8, as the code has it. When every letter box is filled and
    [GuessesSchema.safeParse] fails, [handleSubmit] reports the error and
    still invokes [filter_word_list_command], with [patterns] undefined;
    when a letter box is empty (a state on which the parse fails as well)
    it returns after its alert and invokes nothing. *)
Theorem handleSubmit_invalid_guesses (st : State) :
  GuessesSchema (guesses st) = None ->
  (allFilled st = true ->
   handleSubmit st
   = (st, [ConsoleError "Invalid guesses:";
           Alert "Invalid guesses. Please check your input.";
           Invoke "filter_word_list_command" None]))
  /\ (allFilled st = false ->
      handleSubmit st
      = (st, [Alert "Please fill all letter boxes before submitting."])).
Proof.
  intros Hparse. unfold handleSubmit. split; intros ->; simpl.
  - rewrite Hparse. reflexivity.
  - reflexivity.
Qed.

Lemma handleSubmit_invalid_guesses_witness :
  handleSubmit (mkState [repeat (mkTLetter "1" "absent") 5] [])
  = (mkState [repeat (mkTLetter "1" "absent") 5] [],
     [ConsoleError "Invalid guesses:";
      Alert "Invalid guesses. Please check your input.";
      Invoke "filter_word_list_command" None]).
Proof.
  apply (handleSubmit_invalid_guesses
           (mkState [repeat (mkTLetter "1" "absent") 5] [])); reflexivity.
Defined.

(** C8, as the claim states it, fails on the page's initial state: the
    parse fails there (the letter boxes are empty), yet [handleSubmit]
    stops at its first alert and the command is never invoked. *)
Lemma handleSubmit_stops_when_not_filled :
  GuessesSchema (guesses initial) = None
  /\ handleSubmit initial
     = (initial, [Alert "Please fill all letter boxes before submitting."])
  /\ forall patterns,
       ~ In (Invoke "filter_word_list_command" patterns)
            (snd (handleSubmit initial)).
Proof.
  split; [reflexivity | split; [reflexivity|]].
  intros patterns [H|[]]. discriminate.
Qed.

End Submit.

(** ** Sorting *)

Section Sorting.
Import Frontend.

Lemma insert_sorted_HdRel (x y : string) (a : list string) :
  String.leb y x = true ->
  HdRel (fun u v => String.leb u v = true) y a ->
  HdRel (fun u v => String.leb u v = true) y (insert_sorted x a).
Proof.
  intros Hyx Hhd. destruct a as [|z a]; simpl.
  - constructor. assumption.
  - destruct (String.leb x z); constructor; [assumption|].
    inversion Hhd; assumption.
Qed.

Lemma insert_sorted_ascending (x : string) (a : list string) :
  ascending a -> ascending (insert_sorted x a).
Proof.
  unfold ascending. induction a as [|y a IH]; intros Hs; simpl.
  - repeat constructor.
  - inversion Hs as [|? ? Hs' Hhd]; subst.
    destruct (String.leb x y) eqn:E.
    + constructor; [assumption|]. constructor. assumption.
    + constructor; [apply IH; assumption|].
      apply insert_sorted_HdRel; [|assumption].
      destruct (String.leb_total x y) as [H|H]; congruence.
Qed.

(** [sort] sorts. *)
Lemma sort_ascending (a : list string) : ascending (sort a).
Proof.
  induction a as [|x a IH]; simpl.
  - constructor.
  - apply insert_sorted_ascending, IH.
Qed.

Lemma insert_sorted_Permutation (x : string) (a : list string) :
  Permutation (insert_sorted x a) (x :: a).
Proof.
  induction a as [|y a IH]; simpl.
  - reflexivity.
  - destruct (String.leb x y).
    + reflexivity.
    + rewrite IH. apply perm_swap.
Qed.

(** [sort] keeps the elements, with their multiplicities. *)
Lemma sort_Permutation (a : list string) : Permutation (sort a) a.
Proof.
  induction a as [|x a IH]; simpl.
  - reflexivity.
  - rewrite insert_sorted_Permutation, IH. reflexivity.
Qed.

Lemma sort_In (a : list string) (x : string) : In x (sort a) <-> In x a.
Proof.
  split; apply Permutation_in;
    [apply sort_Permutation | symmetry; apply sort_Permutation].
Qed.

End Sorting.

(** ** [addWordAsGuess] *)

Section AddWord.
Import Frontend.

Lemma correctAtThisPosition_iff (guesses : list TWord) (position : nat)
      (lowerChar : string) :
  correctAtThisPosition guesses position lowerChar = true
  <-> exists guess previous,
        In guess guesses
        /\ nth_error guess position = Some previous
        /\ toLowerCase (character previous) = lowerChar
        /\ state previous = "correct".
Proof.
  unfold correctAtThisPosition. rewrite existsb_exists. split.
  - intros (guess & Hin & H).
    destruct (nth_error guess position) as [previous|] eqn:E; [|discriminate].
    apply andb_true_iff in H. destruct H as [Hc Hs].
    apply String.eqb_eq in Hc. apply String.eqb_eq in Hs.
    exists guess, previous. auto.
  - intros (guess & previous & Hin & E & Hc & Hs).
    exists guess. split; [assumption|].
    rewrite E, Hc, Hs, !String.eqb_refl. reflexivity.
Qed.

Lemma newGuess_from_characters (guesses : list TWord) (chars : list string) :
  forall position,
    map character (newGuess_from guesses position chars) = chars.
Proof.
  induction chars as [|char chars IH]; intros position; simpl.
  - reflexivity.
  - rewrite IH.
    destruct (correctAtThisPosition guesses position (toLowerCase char));
      reflexivity.
Qed.

Lemma newGuess_from_state (guesses : list TWord) (chars : list string) :
  forall position p letter,
    nth_error (newGuess_from guesses position chars) p = Some letter ->
    state letter
    = if correctAtThisPosition guesses (position + p)
                               (toLowerCase (character letter))
      then "correct" else "absent".
Proof.
  induction chars as [|char chars IH]; intros position p letter H; simpl in H.
  - destruct p; discriminate.
  - destruct p as [|p]; simpl in H.
    + injection H as <-. rewrite Nat.add_0_r.
      destruct (correctAtThisPosition guesses position (toLowerCase char)) eqn:E;
        simpl; rewrite E; reflexivity.
    + apply IH in H. rewrite <- Nat.add_succ_comm. exact H.
Qed.

(** C9. With five guesses or more [addWordAsGuess] changes nothing.
    Otherwise it appends exactly one guess, spelling the word, whose letter
    at position [p] is "correct" iff some existing guess has the same
    lower-cased character at [p] marked "correct", and "absent" otherwise;
    and the word is removed from [possibleMatches], whose other entries
    all stay. *)
Theorem addWordAsGuess_spec (word : string) (st : State) :
  (5 <= List.length (guesses st) -> fst (addWordAsGuess word st) = st)
  /\ (List.length (guesses st) < 5 ->
      exists newGuess : TWord,
        guesses (fst (addWordAsGuess word st)) = guesses st ++ [newGuess]
        /\ map character newGuess = split word
        /\ (forall p letter,
              nth_error newGuess p = Some letter ->
              (state letter = "correct"
               <-> exists guess previous,
                     In guess (guesses st)
                     /\ nth_error guess p = Some previous
                     /\ toLowerCase (character previous)
                        = toLowerCase (character letter)
                     /\ state previous = "correct")
              /\ (state letter = "correct" \/ state letter = "absent"))
        /\ ~ In word (possibleMatches (fst (addWordAsGuess word st)))
        /\ Permutation
             (possibleMatches (fst (addWordAsGuess word st)))
             (List.filter (fun match_ => negb (String.eqb match_ word))
                          (possibleMatches st))).
Proof.
  unfold addWordAsGuess. split; intros Hlen.
  - apply Nat.leb_le in Hlen. rewrite Hlen. reflexivity.
  - apply Nat.leb_gt in Hlen. rewrite Hlen. simpl.
    exists (newGuess_from (guesses st) 0 (split word)).
    split; [reflexivity|].
    split; [apply newGuess_from_characters|].
    split; [|split].
    + intros p letter Hp. apply newGuess_from_state in Hp. simpl in Hp.
      rewrite <- correctAtThisPosition_iff.
      destruct (correctAtThisPosition (guesses st) p
                  (toLowerCase (character letter))); rewrite Hp.
      * split; [split; reflexivity | left; reflexivity].
      * split; [split; discriminate | right; reflexivity].
    + rewrite sort_In, filter_In. intros [_ H].
      rewrite String.eqb_refl in H. discriminate.
    + apply sort_Permutation.
Qed.

Lemma addWordAsGuess_spec_witness :
  fst (addWordAsGuess "crane" (mkState (repeat blank_guess 5) ["crane"]))
  = mkState (repeat blank_guess 5) ["crane"]
  /\ exists newGuess : TWord,
       guesses (fst (addWordAsGuess "crane"
                       (mkState [[mkTLetter "C" "correct"]] ["brave"; "crane"])))
       = [[mkTLetter "C" "correct"]] ++ [newGuess]
       /\ map character newGuess = ["c"; "r"; "a"; "n"; "e"].
Proof.
  split.
  - apply (proj1 (addWordAsGuess_spec "crane"
                    (mkState (repeat blank_guess 5) ["crane"]))).
    simpl. lia.
  - destruct (proj2 (addWordAsGuess_spec "crane"
                       (mkState [[mkTLetter "C" "correct"]] ["brave"; "crane"])))
      as (newGuess & Hg & Hc & _).
    + simpl. lia.
    + exists newGuess. split; [exact Hg | exact Hc].
Defined.

End AddWord.

(** ** The order of [possibleMatches] *)

Section Ascending.
Import Frontend.

(** Each of the three updates of [possibleMatches] ends in a [sort]. *)
Lemma updates_sort (st : State) :
  (forall possibleWords,
      ascending (possibleMatches (handleSubmit_then possibleWords st)))
  /\ (forall pending possibleWords,
        includes possibleWords (deletedWord pending) = true ->
        ascending (possibleMatches
                     (fst (deleteGuess_resume pending (Some possibleWords) st))))
  /\ (forall word,
        List.length (guesses st) < 5 ->
        ascending (possibleMatches (fst (addWordAsGuess word st)))).
Proof.
  split; [|split].
  - intros possibleWords. apply sort_ascending.
  - intros pending possibleWords H. simpl. rewrite H. apply sort_ascending.
  - intros word H. unfold addWordAsGuess.
    apply Nat.leb_gt in H. rewrite H. apply sort_ascending.
Qed.

Lemma deleteGuess_possibleMatches (index : nat) (st : State) :
  possibleMatches (fst (deleteGuess index st)) = possibleMatches st.
Proof.
  unfold deleteGuess.
  repeat match goal with
         | |- context [match ?x with _ => _ end] => destruct x
         end; reflexivity.
Qed.

(** A handler either leaves [possibleMatches] alone or stores the result
    of a [sort]. *)
Lemma handle_possibleMatches (e : Event) (st : State) :
  possibleMatches (handle e st) = possibleMatches st
  \/ exists a, possibleMatches (handle e st) = sort a.
Proof.
  destruct e as [|index|pending response| |possibleWords|word]; simpl.
  - left. unfold addGuess. destruct (negb (allFilled st)); reflexivity.
  - left. apply deleteGuess_possibleMatches.
  - destruct response as [possibleWords|]; simpl; [|left; reflexivity].
    destruct (includes possibleWords (deletedWord pending)); simpl;
      [right; eexists; reflexivity | left; reflexivity].
  - left. unfold handleSubmit. destruct (negb (allFilled st)); reflexivity.
  - right. eexists. reflexivity.
  - unfold addWordAsGuess.
    destruct (5 <=? List.length (guesses st)); simpl;
      [left; reflexivity | right; eexists; reflexivity].
Qed.

(** C10. Every handler of the page keeps [possibleMatches] in ascending
    order: [handleSubmit]'s answer, [deleteGuess]'s answer and
    [addWordAsGuess] store a sorted list, and the other paths leave the
    list as it was. *)
Theorem possibleMatches_stays_ascending (e : Event) (st : State) :
  ascending (possibleMatches st) ->
  ascending (possibleMatches (handle e st)).
Proof.
  intros Hasc.
  destruct (handle_possibleMatches e st) as [Hsame|[a Hsorted]].
  - rewrite Hsame. exact Hasc.
  - rewrite Hsorted. apply sort_ascending.
Qed.

Lemma possibleMatches_stays_ascending_witness :
  ascending ["alone"; "brave"; "crane"]
  /\ ascending
       (possibleMatches
          (handle (DeleteGuessAnswer
                     (mkPending "abide"
                                (Invoke "filter_word_list_command" (Some []))
                                "Error checking if deleted word is valid:")
                     (Some ["abide"; "zebra"]))
                  (mkState [] ["alone"; "brave"; "crane"])))
  /\ possibleMatches
       (handle (DeleteGuessAnswer
                  (mkPending "abide"
                             (Invoke "filter_word_list_command" (Some []))
                             "Error checking if deleted word is valid:")
                  (Some ["abide"; "zebra"]))
               (mkState [] ["alone"; "brave"; "crane"]))
     = ["abide"; "alone"; "brave"; "crane"].
Proof.
  assert (H : ascending ["alone"; "brave"; "crane"])
    by (unfold ascending; repeat constructor).
  split; [exact H|]. split; [|reflexivity].
  exact (possibleMatches_stays_ascending
           (DeleteGuessAnswer
              (mkPending "abide"
                         (Invoke "filter_word_list_command" (Some []))
                         "Error checking if deleted word is valid:")
              (Some ["abide"; "zebra"]))
           (mkState [] ["alone"; "brave"; "crane"]) H).
Defined.

(** The list is in ascending order in every state the page can reach. *)
Lemma reachable_ascending (st : State) :
  reachable st -> ascending (possibleMatches st).
Proof.
  induction 1 as [|e st _ IH].
  - constructor.
  - destruct (handle_possibleMatches e st) as [Hsame|[a Hsorted]].
    + rewrite Hsame. exact IH.
    + rewrite Hsorted. apply sort_ascending.
Qed.

End Ascending.


(** ** More on the schemas *)

Section SchemaFacts.
Import Frontend.

Lemma lower_unit_idempotent (c : ascii) : lower_unit (lower_unit c) = lower_unit c.
Proof. destruct c as [[] [] [] [] [] [] [] []]; vm_compute; reflexivity. Qed.

Lemma lower_unit_lower (c : ascii) : is_lower c = true -> lower_unit c = c.
Proof. destruct c as [[] [] [] [] [] [] [] []]; vm_compute; congruence. Qed.

Lemma toLowerCase_idempotent (s : string) :
  toLowerCase (toLowerCase s) = toLowerCase s.
Proof.
  induction s as [|c s IH]; simpl; [|rewrite lower_unit_idempotent, IH];
    reflexivity.
Qed.

Lemma toLowerCase_lower (s : string) :
  forallb is_lower (list_ascii_of_string s) = true -> toLowerCase s = s.
Proof.
  induction s as [|c s IH]; simpl; [reflexivity|].
  intros H. apply andb_true_iff in H. destruct H as [Hc Hs].
  rewrite (lower_unit_lower c Hc), (IH Hs). reflexivity.
Qed.

Lemma valid_letter_normalize (l : TLetter) :
  valid_letter l -> valid_letter (normalize l) /\ normalize (normalize l) = normalize l.
Proof.
  intros [Hc Hs]. unfold normalize, valid_letter. simpl.
  rewrite toLowerCase_idempotent. repeat split; [|assumption].
  apply single_letter_inv in Hc. destruct Hc as (c & -> & Hc). simpl.
  unfold is_alphabetic. rewrite (lower_unit_alphabetic c Hc). reflexivity.
Qed.

Lemma WordSchema_Some_inv (guess : list TLetter) (out : TWord) :
  WordSchema guess = Some out -> valid_guess guess /\ out = map normalize guess.
Proof.
  intros H.
  assert (Hv : valid_guess guess) by (apply WordSchema_accepts_iff; eauto).
  split; [exact Hv|]. destruct Hv as [Hlen Hall].
  rewrite (WordSchema_valid guess Hlen Hall) in H. injection H as <-.
  reflexivity.
Qed.

Lemma WordSchema_normalize (guess : list TLetter) :
  valid_guess guess -> WordSchema guess = Some (map normalize guess).
Proof. intros [Hlen Hall]. apply WordSchema_valid; assumption. Qed.

Lemma GuessesSchema_valid (guesses : list (list TLetter)) :
  Forall valid_guess guesses ->
  GuessesSchema guesses = Some (map (map normalize) guesses).
Proof.
  intros H. unfold GuessesSchema. apply mapM_all_Some.
  eapply List.Forall_impl; [|exact H]. intros g. apply WordSchema_normalize.
Qed.

Lemma GuessesSchema_Some_valid (guesses : list (list TLetter)) (data : list TWord) :
  GuessesSchema guesses = Some data -> Forall valid_guess guesses.
Proof.
  unfold GuessesSchema. intros H. apply mapM_Some_1 in H.
  induction H as [|g out gs outs Hg _ IH]; constructor; [|exact IH].
  apply (WordSchema_Some_inv g out Hg).
Qed.

(** X1. [GuessesSchema] succeeds exactly on the arrays whose guesses all
    have five letters, each a single [a-zA-Z] character with one of the
    four labels; the data it returns is the input with every character in
    lower case and every label untouched. *)
Theorem GuessesSchema_normalizes (guesses : list (list TLetter))
        (data : list TWord) :
  GuessesSchema guesses = Some data
  <-> Forall valid_guess guesses /\ data = map (map normalize) guesses.
Proof.
  split.
  - intros H. pose proof (GuessesSchema_Some_valid _ _ H) as Hv.
    split; [exact Hv|].
    rewrite (GuessesSchema_valid guesses Hv) in H. congruence.
  - intros [Hv ->]. apply GuessesSchema_valid, Hv.
Qed.

Lemma valid_letters_normalize (guess : list TLetter) :
  Forall valid_letter guess ->
  Forall valid_letter (map normalize guess)
  /\ map normalize (map normalize guess) = map normalize guess.
Proof.
  induction 1 as [|l guess Hl _ [IH1 IH2]]; simpl.
  - split; [constructor | reflexivity].
  - destruct (valid_letter_normalize l Hl) as [Hv Hn].
    split; [constructor; assumption | rewrite Hn, IH2; reflexivity].
Qed.

Lemma valid_guess_normalize (guess : list TLetter) :
  valid_guess guess ->
  valid_guess (map normalize guess)
  /\ map normalize (map normalize guess) = map normalize guess.
Proof.
  intros [Hlen Hall]. unfold valid_guess. rewrite length_map.
  destruct (valid_letters_normalize guess Hall) as [H1 H2]. auto.
Qed.

(** X2. Data that came out of [GuessesSchema] passes it again, unchanged:
    validating twice is the same as validating once. *)
Theorem GuessesSchema_idempotent (guesses : list (list TLetter))
        (data : list TWord) :
  GuessesSchema guesses = Some data -> GuessesSchema data = Some data.
Proof.
  intros H. pose proof (GuessesSchema_Some_valid _ _ H) as Hv.
  rewrite (GuessesSchema_valid guesses Hv) in H. injection H as <-.
  assert (Hboth : Forall valid_guess (map (map normalize) guesses)
                  /\ map (map normalize) (map (map normalize) guesses)
                     = map (map normalize) guesses).
  { induction Hv as [|g gs Hg _ IH]; simpl.
    - split; [constructor | reflexivity].
    - destruct (valid_guess_normalize g Hg) as [Hg' Hn].
      destruct IH as [IH1 IH2].
      split; [constructor; assumption | rewrite Hn, IH2; reflexivity]. }
  destruct Hboth as [Hv' Hn].
  rewrite (GuessesSchema_valid _ Hv'), Hn. reflexivity.
Qed.

Lemma GuessesSchema_idempotent_witness :
  GuessesSchema [[mkTLetter "C" "correct"; mkTLetter "r" "unknown";
                  mkTLetter "A" "absent"; mkTLetter "n" "misplaced";
                  mkTLetter "E" "absent"]]
  = Some [[mkTLetter "c" "correct"; mkTLetter "r" "unknown";
           mkTLetter "a" "absent"; mkTLetter "n" "misplaced";
           mkTLetter "e" "absent"]]
  /\ GuessesSchema [[mkTLetter "c" "correct"; mkTLetter "r" "unknown";
                     mkTLetter "a" "absent"; mkTLetter "n" "misplaced";
                     mkTLetter "e" "absent"]]
     = Some [[mkTLetter "c" "correct"; mkTLetter "r" "unknown";
              mkTLetter "a" "absent"; mkTLetter "n" "misplaced";
              mkTLetter "e" "absent"]].
Proof.
  split; [reflexivity|].
  apply (GuessesSchema_idempotent
           [[mkTLetter "C" "correct"; mkTLetter "r" "unknown";
             mkTLetter "A" "absent"; mkTLetter "n" "misplaced";
             mkTLetter "E" "absent"]]).
  reflexivity.
Defined.

Lemma FinalLetterStateSchema_unless_unknown (v : string) :
  FinalLetterStateSchema v
  = if String.eqb v "unknown" then None else LetterStateSchema v.
Proof.
  unfold FinalLetterStateSchema, LetterStateSchema, state_labels,
    final_state_labels.
  simpl. destruct (String.eqb_spec v "unknown") as [->|_]; reflexivity.
Qed.

Lemma FinalLetterSchema_unless_unknown (l : TLetter) :
  FinalLetterSchema l
  = if String.eqb (state l) "unknown" then None else LetterSchema l.
Proof.
  unfold FinalLetterSchema, LetterSchema.
  rewrite FinalLetterStateSchema_unless_unknown.
  destruct (CharacterSchema (character l));
    destruct (String.eqb (state l) "unknown"); reflexivity.
Qed.

Lemma mapM_FinalLetterSchema (guess : list TLetter) :
  mapM FinalLetterSchema guess
  = if existsb (fun l => String.eqb (state l) "unknown") guess
    then None else mapM LetterSchema guess.
Proof.
  induction guess as [|l guess IH]; [reflexivity|].
  cbn [mapM existsb]. rewrite IH, FinalLetterSchema_unless_unknown.
  destruct (String.eqb (state l) "unknown"); simpl; [reflexivity|].
  destruct (LetterSchema l); simpl; destruct (existsb _ guess); reflexivity.
Qed.

(** X3. [FinalWordSchema] accepts exactly the guesses that [WordSchema]
    accepts and that carry no "unknown" label, and returns the same data. *)
Theorem FinalWordSchema_iff_no_unknown (guess : list TLetter) (data : TWord) :
  FinalWordSchema guess = Some data
  <-> WordSchema guess = Some data
      /\ Forall (fun l => state l <> "unknown") guess.
Proof.
  unfold FinalWordSchema, WordSchema. rewrite mapM_FinalLetterSchema.
  destruct (existsb (fun l => String.eqb (state l) "unknown") guess) eqn:E.
  - split; [discriminate|]. intros [_ Hall].
    apply existsb_exists in E. destruct E as (l & Hin & Hl).
    apply String.eqb_eq in Hl.
    exfalso. exact (proj1 (List.Forall_forall _ _) Hall l Hin Hl).
  - split; [|intros [H _]; exact H].
    intros H. split; [exact H|].
    apply List.Forall_forall. intros l Hin Hl.
    assert (existsb (fun l => String.eqb (state l) "unknown") guess = true).
    { apply existsb_exists. exists l. split; [exact Hin|].
      apply String.eqb_eq, Hl. }
    congruence.
Qed.

Lemma valid_guess_filled (guess : list TLetter) :
  Forall valid_letter guess -> filled guess = true.
Proof.
  induction 1 as [|l guess [Hc _] _ IH]; simpl; [reflexivity|].
  rewrite IH, andb_true_r.
  apply single_letter_inv in Hc. destruct Hc as (c & -> & _). reflexivity.
Qed.

(** X4. [GuessesSchema] accepts no state with an empty letter box: when
    the parse of the page's guesses succeeds, [allFilled] holds. *)
Theorem GuessesSchema_Some_allFilled (st : State) (data : list TWord) :
  GuessesSchema (guesses st) = Some data -> allFilled st = true.
Proof.
  intros H. apply GuessesSchema_Some_valid in H. unfold allFilled.
  induction H as [|g gs [_ Hg] _ IH]; simpl; [reflexivity|].
  rewrite (valid_guess_filled g Hg), IH. reflexivity.
Qed.

Lemma GuessesSchema_Some_allFilled_witness :
  allFilled (mkState [repeat (mkTLetter "A" "absent") 5] []) = true.
Proof.
  apply (GuessesSchema_Some_allFilled
           (mkState [repeat (mkTLetter "A" "absent") 5] [])
           [repeat (mkTLetter "a" "absent") 5]).
  reflexivity.
Defined.

End SchemaFacts.

(** ** More on sorting *)

Section SortingFacts.
Import Frontend.

Lemma leb_cases (a b : string) :
  String.leb a b = true <-> a = b \/ OrderedTypeEx.String_as_OT.lt a b.
Proof.
  unfold String.leb.
  destruct (String.compare a b) eqn:E.
  - apply OrderedTypeEx.String_as_OT.cmp_eq in E. tauto.
  - apply OrderedTypeEx.String_as_OT.cmp_lt in E. tauto.
  - split; [discriminate|]. intros [->|H].
    + assert (String.compare b b = Eq)
        by (apply OrderedTypeEx.String_as_OT.cmp_eq; reflexivity).
      congruence.
    + apply OrderedTypeEx.String_as_OT.cmp_lt in H.
      unfold OrderedTypeEx.String_as_OT.cmp in H. congruence.
Qed.

Lemma leb_trans (a b c : string) :
  String.leb a b = true -> String.leb b c = true -> String.leb a c = true.
Proof.
  rewrite !leb_cases. intros [->|Hab] [->|Hbc]; auto.
  right. eapply OrderedTypeEx.String_as_OT.lt_trans; eassumption.
Qed.

Lemma ascending_head_least (x : string) (a : list string) :
  ascending (x :: a) -> forall y, In y a -> String.leb x y = true.
Proof.
  unfold ascending. revert x.
  induction a as [|z a IH]; intros x Hs y Hin; [destruct Hin|].
  inversion Hs as [|? ? Hs' Hhd]; subst. inversion Hhd; subst.
  destruct Hin as [->|Hin]; [assumption|].
  eapply leb_trans; [eassumption|]. apply IH; assumption.
Qed.

(** Two ascending lists with the same elements are the same list. *)
Lemma ascending_unique (a : list string) :
  forall b, ascending a -> ascending b -> Permutation a b -> a = b.
Proof.
  induction a as [|x a IH]; intros b Ha Hb Hp.
  - apply Permutation_nil in Hp. congruence.
  - destruct b as [|y b].
    + apply Permutation_sym, Permutation_nil in Hp. discriminate.
    + assert (Hxy : x = y).
      { assert (Hx : In x (y :: b))
          by (eapply Permutation_in; [exact Hp | left; reflexivity]).
        assert (Hy : In y (x :: a))
          by (eapply Permutation_in;
              [apply Permutation_sym; exact Hp | left; reflexivity]).
        destruct Hx as [Hx|Hx]; [congruence|].
        destruct Hy as [Hy|Hy]; [congruence|].
        apply String.leb_antisym.
        - apply (ascending_head_least x a Ha y Hy).
        - apply (ascending_head_least y b Hb x Hx). }
      subst y. f_equal. apply IH.
      * unfold ascending in *. inversion Ha; assumption.
      * unfold ascending in *. inversion Hb; assumption.
      * eapply Permutation_cons_inv. exact Hp.
Qed.

Lemma sort_ascending_id (a : list string) : ascending a -> sort a = a.
Proof.
  intros Ha. apply ascending_unique;
    [apply sort_ascending | exact Ha | apply sort_Permutation].
Qed.

(** X5. The list [handleSubmit] stores does not depend on the order in
    which the command returns the words: two answers with the same words
    leave the same state. *)
Theorem handleSubmit_then_order_independent (a b : list string) (st : State) :
  Permutation a b -> handleSubmit_then a st = handleSubmit_then b st.
Proof.
  intros Hp. unfold handleSubmit_then. f_equal.
  apply ascending_unique; [apply sort_ascending | apply sort_ascending |].
  rewrite (sort_Permutation a), (sort_Permutation b). exact Hp.
Qed.

Lemma handleSubmit_then_order_independent_witness :
  handleSubmit_then ["crane"; "alone"; "brave"] initial
  = handleSubmit_then ["brave"; "crane"; "alone"] initial.
Proof.
  apply handleSubmit_then_order_independent.
  apply Permutation_cons_app with (l1 := ["brave"]) (l2 := ["alone"]).
  apply perm_swap.
Defined.

End SortingFacts.

(** ** More on the page's handlers *)

Section PageFacts.
Import Frontend.

Lemma filled_blank_guess : filled blank_guess = false.
Proof. reflexivity. Qed.

(** X6. [addGuess] right after [addGuess] adds nothing: whatever the
    first call did, the second one finds an unfilled guess, alerts and
    leaves the state alone. *)
Theorem addGuess_twice (st : State) :
  addGuess (fst (addGuess st))
  = (fst (addGuess st),
     [Alert "Please fill all letter boxes before adding a new guess."]).
Proof.
  unfold addGuess at 2 3.
  destruct (allFilled st) eqn:E; simpl.
  - unfold addGuess, allFilled. simpl.
    rewrite forallb_app. simpl. rewrite andb_false_r. reflexivity.
  - unfold addGuess. rewrite E. reflexivity.
Qed.

Lemma remove_at_length {A : Type} (a : list A) :
  forall index, index < List.length a ->
                List.length (remove_at index a) + 1 = List.length a.
Proof.
  induction a as [|x a IH]; intros index H; simpl in *; [lia|].
  destruct index as [|index]; simpl; [lia|].
  rewrite <- (IH index); lia.
Qed.

Lemma remove_at_nth_error {A : Type} (a : list A) :
  forall index j,
    nth_error (remove_at index a) j
    = if j <? index then nth_error a j else nth_error a (S j).
Proof.
  induction a as [|x a IH]; intros index j.
  - destruct index as [|index]; simpl;
      [|destruct (j <? S index)]; destruct j; reflexivity.
  - destruct index as [|index]; [reflexivity|].
    destruct j as [|j]; [reflexivity|].
    change (nth_error (remove_at index a) j
            = if j <? index then nth_error a j else nth_error a (S j)).
    apply IH.
Qed.

Lemma remove_at_out_of_range {A : Type} (a : list A) :
  forall index, List.length a <= index -> remove_at index a = a.
Proof.
  induction a as [|x a IH]; intros index H; simpl in *.
  - destruct index; reflexivity.
  - destruct index as [|index]; [lia|]. simpl. rewrite IH; [reflexivity|lia].
Qed.

Lemma deleteGuess_guesses (index : nat) (st : State) (deletedGuess : TWord) :
  nth_error (guesses st) index = Some deletedGuess ->
  guesses (fst (deleteGuess index st)) = remove_at index (guesses st).
Proof.
  intros H. unfold deleteGuess. rewrite H.
  repeat match goal with
         | |- context [match ?x with _ => _ end] => destruct x
         end; reflexivity.
Qed.

(** X7. [deleteGuess] with an index past the end changes nothing and asks
    nothing; with a valid index it removes exactly that guess (the earlier
    guesses keep their place, the later ones move up by one) and leaves
    [possibleMatches] for the answer to update. *)
Theorem deleteGuess_removes_one (index : nat) (st : State) :
  (List.length (guesses st) <= index -> deleteGuess index st = (st, None))
  /\ (index < List.length (guesses st) ->
      List.length (guesses (fst (deleteGuess index st))) + 1
      = List.length (guesses st)
      /\ (forall j,
            nth_error (guesses (fst (deleteGuess index st))) j
            = if j <? index then nth_error (guesses st) j
              else nth_error (guesses st) (S j))
      /\ possibleMatches (fst (deleteGuess index st)) = possibleMatches st).
Proof.
  split; intros H.
  - unfold deleteGuess.
    apply nth_error_None in H. rewrite H. reflexivity.
  - destruct (nth_error (guesses st) index) as [g|] eqn:E;
      [|apply nth_error_None in E; lia].
    rewrite (deleteGuess_guesses index st g E).
    split; [apply remove_at_length; exact H|].
    split; [intros j; apply remove_at_nth_error|].
    apply deleteGuess_possibleMatches.
Qed.

Lemma deleteGuess_removes_one_witness :
  deleteGuess 3 initial = (initial, None)
  /\ guesses (fst (deleteGuess 0 (mkState [blank_guess;
                                          repeat (mkTLetter "a" "absent") 5]
                                         [])))
     = [repeat (mkTLetter "a" "absent") 5].
Proof.
  split.
  - apply (proj1 (deleteGuess_removes_one 3 initial)). simpl. lia.
  - reflexivity.
Defined.

(** X8. [deleteGuess] asks the command only about a deleted word of five
    lower-case letters that is not listed already, and the patterns it
    sends are the validated data of the remaining filled guesses: it never
    sends [undefined] or unvalidated guesses. *)
Theorem deleteGuess_request_validated (index : nat) (st st' : State)
        (pending : Pending) :
  deleteGuess index st = (st', Some pending) ->
  String.length (deletedWord pending) = 5
  /\ lower_letters (deletedWord pending) = true
  /\ includes (possibleMatches st) (deletedWord pending) = false
  /\ exists deletedGuess data,
       nth_error (guesses st) index = Some deletedGuess
       /\ deletedWord pending = toLowerCase (join (map character deletedGuess))
       /\ GuessesSchema (List.filter filled (guesses st')) = Some data
       /\ request pending = Invoke "filter_word_list_command" (Some data).
Proof.
  unfold deleteGuess.
  destruct (nth_error (guesses st) index) as [deletedGuess|] eqn:E;
    [|discriminate].
  set (w := toLowerCase (join (map character deletedGuess))).
  destruct (String.length w =? 5) eqn:Hlen; simpl; [|discriminate].
  destruct (lower_letters w) eqn:Hlow; simpl; [|discriminate].
  destruct (includes (possibleMatches st) w) eqn:Hinc; simpl; [discriminate|].
  apply Nat.eqb_eq in Hlen.
  destruct (0 <? List.length (List.filter filled (remove_at index (guesses st))))
    eqn:Ef.
  - destruct (GuessesSchema (List.filter filled (remove_at index (guesses st))))
      as [data|] eqn:Ep; [|discriminate].
    intros H. injection H as <- <-. simpl.
    repeat split; try assumption.
    exists deletedGuess, data. repeat split. exact Ep.
  - intros H. injection H as <- <-. simpl.
    repeat split; try assumption.
    exists deletedGuess, []. repeat split.
    apply Nat.ltb_ge in Ef.
    destruct (List.filter filled (remove_at index (guesses st)));
      [reflexivity | simpl in Ef; lia].
Qed.

Lemma deleteGuess_request_validated_witness :
  deleteGuess 1
    (mkState [repeat (mkTLetter "A" "absent") 5;
              [mkTLetter "C" "absent"; mkTLetter "R" "absent";
               mkTLetter "A" "absent"; mkTLetter "N" "absent";
               mkTLetter "E" "absent"]] ["alone"])
  = (mkState [repeat (mkTLetter "A" "absent") 5] ["alone"],
     Some (mkPending "crane"
             (Invoke "filter_word_list_command"
                     (Some [repeat (mkTLetter "a" "absent") 5]))
             "Error checking deleted word:"))
  /\ includes ["alone"] "crane" = false.
Proof.
  split; [reflexivity|].
  apply (deleteGuess_request_validated 1
           (mkState [repeat (mkTLetter "A" "absent") 5;
                     [mkTLetter "C" "absent"; mkTLetter "R" "absent";
                      mkTLetter "A" "absent"; mkTLetter "N" "absent";
                      mkTLetter "E" "absent"]] ["alone"])
           (mkState [repeat (mkTLetter "A" "absent") 5] ["alone"])
           (mkPending "crane"
              (Invoke "filter_word_list_command"
                      (Some [repeat (mkTLetter "a" "absent") 5]))
              "Error checking deleted word:")
           eq_refl).
Defined.

Lemma split_length (word : string) :
  List.length (split word) = String.length word.
Proof.
  unfold split. rewrite length_map. apply length_list_ascii_of_string.
Qed.

Lemma join_split (word : string) : join (split word) = word.
Proof.
  unfold join, split.
  induction word as [|c word IH]; [reflexivity|].
  cbn [list_ascii_of_string map].
  remember (map (fun c0 => String c0 EmptyString) (list_ascii_of_string word))
    as l eqn:E.
  destruct l as [|s l].
  - destruct word; [reflexivity | discriminate E].
  - change (String.append (String c EmptyString)
                          (String.append "" (String.concat "" (s :: l)))
            = String c word).
    rewrite IH. reflexivity.
Qed.

Lemma newGuess_from_valid (guesses : list TWord) (word : string) :
  String.length word = 5 ->
  forallb is_alphabetic (list_ascii_of_string word) = true ->
  valid_guess (newGuess_from guesses 0 (split word)).
Proof.
  intros Hlen Halpha. split.
  - rewrite <- (length_map character), newGuess_from_characters, split_length.
    exact Hlen.
  - apply List.Forall_forall. intros letter Hin.
    apply In_nth_error in Hin. destruct Hin as [p Hp].
    pose proof (newGuess_from_state guesses (split word) 0 p letter Hp) as Hs.
    assert (Hc : nth_error (split word) p = Some (character letter)).
    { rewrite <- (newGuess_from_characters guesses (split word) 0).
      rewrite nth_error_map, Hp. reflexivity. }
    unfold split in Hc. rewrite nth_error_map in Hc.
    destruct (nth_error (list_ascii_of_string word) p) as [c|] eqn:Ec;
      [|discriminate].
    injection Hc as Hc. split.
    + rewrite <- Hc. simpl.
      apply nth_error_In in Ec.
      exact (proj1 (forallb_forall _ _) Halpha c Ec).
    + rewrite Hs. unfold state_labels.
      destruct (correctAtThisPosition _ _ _); simpl; auto.
Qed.

(** X9. Clicking a suggested word keeps the form valid: when the guesses
    pass [GuessesSchema], there are fewer than five of them and the word
    has five alphabetic characters, the guesses after [addWordAsGuess]
    pass [GuessesSchema] too. *)
Theorem addWordAsGuess_keeps_valid (word : string) (st : State)
        (data : list TWord) :
  List.length (guesses st) < 5 ->
  String.length word = 5 ->
  forallb is_alphabetic (list_ascii_of_string word) = true ->
  GuessesSchema (guesses st) = Some data ->
  exists newData,
    GuessesSchema (guesses (fst (addWordAsGuess word st)))
    = Some (data ++ [newData]).
Proof.
  intros Hn Hlen Halpha Hparse.
  pose proof (GuessesSchema_Some_valid _ _ Hparse) as Hv.
  rewrite (GuessesSchema_valid _ Hv) in Hparse. injection Hparse as <-.
  unfold addWordAsGuess. apply Nat.leb_gt in Hn. rewrite Hn. simpl.
  exists (map normalize (newGuess_from (guesses st) 0 (split word))).
  rewrite GuessesSchema_valid.
  - rewrite map_app. reflexivity.
  - apply Forall_app. split; [exact Hv|].
    constructor; [|constructor].
    apply newGuess_from_valid; assumption.
Qed.

Lemma addWordAsGuess_keeps_valid_witness :
  exists newData,
    GuessesSchema
      (guesses (fst (addWordAsGuess "crane"
                       (mkState [repeat (mkTLetter "C" "correct") 5]
                                ["crane"]))))
    = Some ([repeat (mkTLetter "c" "correct") 5] ++ [newData]).
Proof.
  apply (addWordAsGuess_keeps_valid "crane"
           (mkState [repeat (mkTLetter "C" "correct") 5] ["crane"])
           [repeat (mkTLetter "c" "correct") 5]);
    [simpl; lia | reflexivity | reflexivity | reflexivity].
Defined.

Lemma deleteGuess_asks (index : nat) (st : State) (g : TWord)
      (data : list TWord) :
  nth_error (guesses st) index = Some g ->
  String.length (toLowerCase (join (map character g))) = 5 ->
  lower_letters (toLowerCase (join (map character g))) = true ->
  includes (possibleMatches st) (toLowerCase (join (map character g))) = false ->
  GuessesSchema (List.filter filled (remove_at index (guesses st))) = Some data ->
  exists pending,
    deleteGuess index st
    = (mkState (remove_at index (guesses st)) (possibleMatches st), Some pending)
    /\ deletedWord pending = toLowerCase (join (map character g)).
Proof.
  intros Hg Hlen Hlow Hinc Hdata. unfold deleteGuess.
  rewrite Hg, Hlen, Hlow, Hinc. simpl.
  destruct (0 <? List.length (List.filter filled (remove_at index (guesses st)))).
  - rewrite Hdata. eexists. split; reflexivity.
  - eexists. split; reflexivity.
Qed.

Lemma remove_at_last {A : Type} (a : list A) (x : A) :
  remove_at (List.length a) (a ++ [x]) = a.
Proof. induction a as [|y a IH]; simpl; [|rewrite IH]; reflexivity. Qed.

Lemma includes_In (a : list string) (x : string) :
  includes a x = true <-> In x a.
Proof. apply existsb_eqb_In. Qed.

Lemma filter_other_Permutation (word : string) (a : list string) :
  List.NoDup a -> In word a ->
  Permutation (word :: List.filter (fun m => negb (String.eqb m word)) a) a.
Proof.
  induction 1 as [|x a Hx Hnd IH]; intros Hin; [destruct Hin|].
  simpl. destruct (String.eqb_spec x word) as [->|Hne]; simpl.
  - constructor.
    assert (E : List.filter (fun m => negb (String.eqb m word)) a = a).
    { clear IH Hin Hnd. induction a as [|y a IHa]; simpl; [reflexivity|].
      destruct (String.eqb_spec y word) as [->|_]; simpl.
      - exfalso. apply Hx. simpl. auto.
      - rewrite IHa; [reflexivity|]. intros H. apply Hx. simpl. auto. }
    rewrite E. reflexivity.
  - destruct Hin as [Hin|Hin]; [contradiction|].
    etransitivity; [apply perm_swap|]. constructor. apply IH, Hin.
Qed.

(** X10. Clicking a suggested word and then deleting the guess it made
    brings the page back: for a listed word of five lower-case letters, on
    a page with fewer than five guesses whose filled guesses pass
    [GuessesSchema] and whose list is sorted and free of repetitions,
    [deleteGuess] on the new last guess asks the command about that very
    word and, once the answer contains it, guesses and [possibleMatches]
    are what they were before the click. *)
Theorem add_then_delete_round_trip (word : string) (st : State)
        (data : list TWord) (response : list string) :
  List.length (guesses st) < 5 ->
  String.length word = 5 ->
  lower_letters word = true ->
  ascending (possibleMatches st) ->
  List.NoDup (possibleMatches st) ->
  In word (possibleMatches st) ->
  GuessesSchema (List.filter filled (guesses st)) = Some data ->
  includes response word = true ->
  exists st' pending,
    deleteGuess (List.length (guesses st)) (fst (addWordAsGuess word st))
    = (st', Some pending)
    /\ deletedWord pending = word
    /\ fst (deleteGuess_resume pending (Some response) st') = st.
Proof.
  intros Hn Hlen Hlow Hasc Hnd Hin Hdata Hresp.
  assert (Hw : toLowerCase word = word).
  { apply toLowerCase_lower. unfold lower_letters in Hlow.
    apply andb_true_iff in Hlow. apply Hlow. }
  unfold addWordAsGuess. apply Nat.leb_gt in Hn. rewrite Hn. simpl.
  set (newGuess := newGuess_from (guesses st) 0 (split word)).
  set (rest := sort (List.filter (fun m => negb (String.eqb m word))
                                 (possibleMatches st))).
  assert (Hjoin : toLowerCase (join (map character newGuess)) = word).
  { unfold newGuess. rewrite newGuess_from_characters, join_split. exact Hw. }
  destruct (deleteGuess_asks (List.length (guesses st))
              (mkState (guesses st ++ [newGuess]) rest) newGuess data)
    as (pending & Hdel & Hword).
  - simpl. rewrite nth_error_app2 by lia. rewrite Nat.sub_diag. reflexivity.
  - rewrite Hjoin. exact Hlen.
  - rewrite Hjoin. exact Hlow.
  - rewrite Hjoin. simpl.
    destruct (includes rest word) eqn:E; [|reflexivity].
    apply includes_In in E. unfold rest in E.
    rewrite sort_In, filter_In in E. destruct E as [_ E].
    rewrite String.eqb_refl in E. discriminate.
  - simpl. rewrite remove_at_last. exact Hdata.
  - simpl in Hdel. rewrite remove_at_last in Hdel.
    exists (mkState (guesses st) rest), pending.
    split; [exact Hdel|]. rewrite Hword, Hjoin.
    split; [reflexivity|].
    simpl. rewrite Hresp. simpl.
    destruct st as [gs pm]. simpl in *. f_equal.
    apply ascending_unique; [apply sort_ascending | exact Hasc |].
    rewrite sort_Permutation. unfold rest. rewrite sort_Permutation.
    rewrite <- Permutation_cons_append.
    apply filter_other_Permutation; assumption.
Qed.

Lemma add_then_delete_round_trip_witness :
  exists st' pending,
    deleteGuess 1 (fst (addWordAsGuess "crane"
                          (mkState [blank_guess] ["alone"; "crane"; "grape"])))
    = (st', Some pending)
    /\ deletedWord pending = "crane"
    /\ fst (deleteGuess_resume pending (Some ["crane"; "zebra"]) st')
       = mkState [blank_guess] ["alone"; "crane"; "grape"].
Proof.
  apply (add_then_delete_round_trip "crane"
           (mkState [blank_guess] ["alone"; "crane"; "grape"]) []
           ["crane"; "zebra"]).
  - simpl. lia.
  - reflexivity.
  - reflexivity.
  - unfold ascending. repeat constructor.
  - repeat constructor; simpl; intuition discriminate.
  - simpl. auto.
  - reflexivity.
  - reflexivity.
Defined.

End PageFacts.

(** ** The letter boxes *)

Section LetterBoxes.
Import Frontend.

Lemma nth_error_lookup {A : Type} (l : list A) :
  forall i, nth_error l i = l !! i.
Proof.
  induction l as [|x l IH]; intros [|i]; simpl; try reflexivity. apply IH.
Qed.

Lemma nth_error_insert_eq {A : Type} (l : list A) (i : nat) (x : A) :
  i < List.length l -> nth_error (<[i := x]> l) i = Some x.
Proof. intros H. rewrite nth_error_lookup. apply list_lookup_insert_eq, H. Qed.

Lemma nth_error_insert_ne {A : Type} (l : list A) (i j : nat) (x : A) :
  j <> i -> nth_error (<[i := x]> l) j = nth_error l j.
Proof.
  intros H. rewrite !nth_error_lookup. apply list_lookup_insert_ne. auto.
Qed.

Lemma insert_same {A : Type} (l : list A) (i : nat) (x : A) :
  nth_error l i = Some x -> <[i := x]> l = l.
Proof. rewrite nth_error_lookup. apply list_insert_id. Qed.

(** The label that follows [label] in [stateOrder], "unknown" coming
    after "absent" and after every label that is not in the list. *)
Lemma next_in_stateOrder (label : string) :
  nth (Z.to_nat (Z.rem (indexOf stateOrder label + 1)
                       (Z.of_nat (List.length stateOrder))))
      stateOrder ""
  = if String.eqb label "unknown" then "correct"
    else if String.eqb label "correct" then "misplaced"
    else if String.eqb label "misplaced" then "absent"
    else "unknown".
Proof.
  unfold stateOrder, indexOf.
  rewrite (String.eqb_sym "unknown"), (String.eqb_sym "correct"),
    (String.eqb_sym "misplaced"), (String.eqb_sym "absent").
  destruct (String.eqb label "unknown"); [reflexivity|].
  destruct (String.eqb label "correct"); [reflexivity|].
  destruct (String.eqb label "misplaced"); [reflexivity|].
  destruct (String.eqb label "absent"); reflexivity.
Qed.

Lemma cycleLetterState_Some (index : nat) (word : TWord) (letter : TLetter) :
  nth_error word index = Some letter ->
  cycleLetterState index word
  = Some (<[index := mkTLetter (character letter)
                       (if String.eqb (state letter) "unknown" then "correct"
                        else if String.eqb (state letter) "correct"
                             then "misplaced"
                        else if String.eqb (state letter) "misplaced"
                             then "absent"
                        else "unknown")]> word).
Proof.
  intros H. unfold cycleLetterState. rewrite H, next_in_stateOrder.
  reflexivity.
Qed.

(** X11. A click on a letter box changes the label of that letter only:
    "unknown" becomes "correct", "correct" becomes "misplaced", "misplaced"
    becomes "absent", and "absent", like any label outside the four,
    becomes "unknown"; the character, the other letters and the length of
    the word stay, and a click past the end of the word throws. *)
Theorem cycleLetterState_spec (index : nat) (word : TWord) :
  (List.length word <= index -> cycleLetterState index word = None)
  /\ (forall letter, nth_error word index = Some letter ->
      exists word',
        cycleLetterState index word = Some word'
        /\ List.length word' = List.length word
        /\ (forall j, j <> index -> nth_error word' j = nth_error word j)
        /\ nth_error word' index
           = Some (mkTLetter
                     (character letter)
                     (if String.eqb (state letter) "unknown" then "correct"
                      else if String.eqb (state letter) "correct"
                           then "misplaced"
                      else if String.eqb (state letter) "misplaced"
                           then "absent"
                      else "unknown"))).
Proof.
  split.
  - intros H. unfold cycleLetterState.
    apply nth_error_None in H. rewrite H. reflexivity.
  - intros letter H. eexists.
    split; [apply cycleLetterState_Some; exact H|].
    split; [apply length_insert|].
    split; [intros j Hj; apply nth_error_insert_ne; exact Hj|].
    apply nth_error_insert_eq. apply nth_error_Some. congruence.
Qed.

Lemma cycleLetterState_spec_witness :
  cycleLetterState 7 blank_guess = None
  /\ exists word',
       cycleLetterState 2 blank_guess = Some word'
       /\ nth_error word' 2 = Some (mkTLetter "" "unknown").
Proof.
  split.
  - apply (proj1 (cycleLetterState_spec 7 blank_guess)). simpl. lia.
  - destruct (proj2 (cycleLetterState_spec 2 blank_guess)
                    (mkTLetter "" "absent") eq_refl)
      as (word' & H1 & _ & _ & H2).
    exists word'. split; [exact H1 | exact H2].
Defined.

(** X12. Four clicks on a letter box whose label is one of the four bring
    the word back to what it was. *)
Theorem cycleLetterState_four_clicks (index : nat) (word : TWord)
        (letter : TLetter) :
  nth_error word index = Some letter ->
  In (state letter) stateOrder ->
  exists w1 w2 w3,
    cycleLetterState index word = Some w1
    /\ cycleLetterState index w1 = Some w2
    /\ cycleLetterState index w2 = Some w3
    /\ cycleLetterState index w3 = Some word.
Proof.
  intros Hl Hs.
  assert (Hlt : index < List.length word)
    by (apply nth_error_Some; congruence).
  pose proof (cycleLetterState_Some index word letter Hl) as H1.
  set (l1 := mkTLetter (character letter) _) in H1.
  assert (E1 : nth_error (<[index := l1]> word) index = Some l1)
    by (apply nth_error_insert_eq, Hlt).
  pose proof (cycleLetterState_Some index _ l1 E1) as H2.
  unfold TWord in H2. rewrite list_insert_insert_eq in H2.
  set (l2 := mkTLetter (character l1) _) in H2.
  assert (E2 : nth_error (<[index := l2]> word) index = Some l2)
    by (apply nth_error_insert_eq, Hlt).
  pose proof (cycleLetterState_Some index _ l2 E2) as H3.
  unfold TWord in H3. rewrite list_insert_insert_eq in H3.
  set (l3 := mkTLetter (character l2) _) in H3.
  assert (E3 : nth_error (<[index := l3]> word) index = Some l3)
    by (apply nth_error_insert_eq, Hlt).
  pose proof (cycleLetterState_Some index _ l3 E3) as H4.
  unfold TWord in H4. rewrite list_insert_insert_eq in H4.
  exists (<[index := l1]> word), (<[index := l2]> word), (<[index := l3]> word).
  split; [exact H1|]. split; [exact H2|]. split; [exact H3|].
  refine (eq_trans H4 _). f_equal. apply insert_same. rewrite Hl. f_equal.
  destruct letter as [ch st]. unfold l3, l2, l1. simpl in *.
  unfold stateOrder in Hs. simpl in Hs.
  destruct Hs as [<-|[<-|[<-|[<-|[]]]]]; reflexivity.
Qed.

Lemma cycleLetterState_four_clicks_witness :
  exists w1 w2 w3,
    cycleLetterState 0 blank_guess = Some w1
    /\ cycleLetterState 0 w1 = Some w2
    /\ cycleLetterState 0 w2 = Some w3
    /\ cycleLetterState 0 w3 = Some blank_guess.
Proof.
  apply (cycleLetterState_four_clicks 0 blank_guess (mkTLetter "" "absent"));
    [reflexivity|].
  unfold stateOrder. simpl. auto.
Defined.

Lemma last_unit_length (value : string) :
  last_unit value = None -> String.length value = 0.
Proof.
  induction value as [|c value IH]; [reflexivity|].
  simpl. destruct value; [discriminate|]. intros H. apply IH in H. discriminate.
Qed.

(** X13. Typing in a letter box stores nothing but a single character of
    [A-Z], which [CharacterSchema] accepts and turns into lower case: the
    word comes back with that one character replaced, or unchanged when
    the value is empty or does not end in such a letter; labels, length and
    the other letters are never touched. *)
Theorem handleInput_stores_letter (index : nat) (value : string)
        (word word' : TWord) :
  handleInput index value word = Some word' ->
  List.length word' = List.length word
  /\ map state word' = map state word
  /\ (forall j, j <> index -> nth_error word' j = nth_error word j)
  /\ ((word' = word
       /\ forall c, last_unit value = Some c -> is_upper c = false)
      \/ exists c old,
           last_unit value = Some c
           /\ is_upper c = true
           /\ nth_error word index = Some old
           /\ nth_error word' index
              = Some (mkTLetter (String c EmptyString) (state old))
           /\ CharacterSchema (String c EmptyString)
              = Some (String (lower_unit c) EmptyString)).
Proof.
  unfold handleInput, TWord in *.
  assert (Hsame : forall w : list TLetter,
             List.length w = List.length w /\ map state w = map state w
             /\ forall j, j <> index -> nth_error w j = nth_error w j)
    by (intros w; repeat split).
  destruct (0 <? String.length value) eqn:Hlen.
  - destruct (last_unit value) as [c|] eqn:Hlast.
    + destruct (is_upper c) eqn:Hup.
      * destruct (nth_error word index) as [old|] eqn:Hold; [|discriminate].
        intros H. injection H as <-.
        assert (Hlt : index < List.length word)
          by (apply nth_error_Some; congruence).
        split; [apply length_insert|].
        split.
        { apply nth_error_ext. intros j. rewrite !nth_error_map.
          destruct (Nat.eq_dec j index) as [->|Hj].
          - rewrite nth_error_insert_eq, Hold by exact Hlt. reflexivity.
          - rewrite nth_error_insert_ne by exact Hj. reflexivity. }
        split; [intros j Hj; apply nth_error_insert_ne; exact Hj|].
        right. exists c, old.
        split; [reflexivity|]. split; [exact Hup|]. split; [reflexivity|].
        split; [apply nth_error_insert_eq; exact Hlt|].
        apply CharacterSchema_Some. exists c.
        unfold is_alphabetic. rewrite Hup, orb_true_r. auto.
      * intros H. injection H as <-.
        destruct (Hsame word) as (H1 & H2 & H3).
        repeat split; try assumption.
        left. split; [reflexivity|]. intros c' Hc'. congruence.
    + apply last_unit_length in Hlast. apply Nat.ltb_lt in Hlen. lia.
  - intros H. injection H as <-.
    destruct (Hsame word) as (H1 & H2 & H3).
    repeat split; try assumption.
    left. split; [reflexivity|]. intros c Hc.
    apply Nat.ltb_ge in Hlen.
    destruct value; [discriminate | simpl in Hlen; lia].
Qed.

Lemma handleInput_stores_letter_witness :
  List.length (<[1 := mkTLetter "Q" "absent"]> blank_guess)
  = List.length blank_guess
  /\ handleInput 1 "Q" blank_guess
     = Some (<[1 := mkTLetter "Q" "absent"]> blank_guess)
  /\ handleInput 1 "7" blank_guess = Some blank_guess.
Proof.
  split; [|split; reflexivity].
  apply (handleInput_stores_letter 1 "Q" blank_guess
           (<[1 := mkTLetter "Q" "absent"]> blank_guess) eq_refl).
Defined.

End LetterBoxes.

(** ** What the page keeps true while the user drives it *)

Section UiInvariants.
Import Frontend.

Lemma on_guess_length (key : nat) (handler : TWord -> option TWord) (st : State) :
  List.length (guesses (on_guess key handler st)) = List.length (guesses st).
Proof.
  unfold on_guess.
  destruct (nth_error (guesses st) key); [|reflexivity].
  destruct (handler t); [|reflexivity]. simpl. apply length_insert.
Qed.

Lemma ui_handle_count (e : UiEvent) (st : State) :
  offered e st = true ->
  1 <= List.length (guesses st) <= 5 ->
  1 <= List.length (guesses (ui_handle e st)) <= 5.
Proof.
  intros Hoff Hn.
  destruct e as [[|index|pending response| |possibleWords|word]
                |key index|key index value]; simpl in *.
  - apply Nat.ltb_lt in Hoff. unfold addGuess.
    destruct (negb (allFilled st)); simpl; [lia|].
    rewrite length_app. simpl. lia.
  - apply negb_true_iff, orb_false_iff in Hoff. destruct Hoff as [Hidx Hlen].
    apply negb_false_iff, Nat.eqb_eq in Hidx. apply Nat.leb_gt in Hlen.
    assert (Hlt : index < List.length (guesses st)) by lia.
    destruct (nth_error (guesses st) index) as [g|] eqn:E;
      [|apply nth_error_None in E; lia].
    rewrite (deleteGuess_guesses index st g E).
    pose proof (remove_at_length (guesses st) index Hlt). lia.
  - destruct response as [possibleWords|]; simpl; [|lia].
    destruct (includes possibleWords (deletedWord pending)); simpl; lia.
  - unfold handleSubmit. destruct (negb (allFilled st)); simpl; lia.
  - lia.
  - unfold addWordAsGuess.
    destruct (5 <=? List.length (guesses st)) eqn:E; simpl; [lia|].
    apply Nat.leb_gt in E. rewrite length_app. simpl. lia.
  - rewrite on_guess_length. lia.
  - rewrite on_guess_length. lia.
Qed.

(** X14. However the user drives the page, it shows between one and five
    guesses: the last guess cannot be deleted when it is the only one, and
    neither "Add Guess" nor a suggested word can add a sixth. *)
Theorem ui_guess_count (st : State) :
  ui_reachable st -> 1 <= List.length (guesses st) <= 5.
Proof.
  induction 1 as [|e st _ IH Hoff].
  - simpl. lia.
  - apply ui_handle_count; assumption.
Qed.

Lemma ui_guess_count_witness :
  1 <= List.length
         (guesses (ui_handle (Page (AddWordAsGuess "crane"))
                             (ui_handle (Page (SubmitAnswer ["crane"]))
                                        initial)))
    <= 5.
Proof.
  apply ui_guess_count.
  apply ui_reachable_step; [|reflexivity].
  apply ui_reachable_step; [|reflexivity].
  apply ui_reachable_initial.
Defined.

Lemma well_shaped_blank : Forall well_shaped blank_guess.
Proof.
  apply List.Forall_forall. intros letter Hin.
  apply repeat_spec in Hin. subst letter.
  split; simpl; [lia | tauto].
Qed.

Lemma remove_at_Forall {A : Type} (P : A -> Prop) (a : list A) :
  forall index, Forall P a -> Forall P (remove_at index a).
Proof.
  induction a as [|x a IH]; intros index H.
  - destruct index; exact H.
  - inversion H; subst. destruct index as [|index]; simpl; [assumption|].
    constructor; [assumption | apply IH; assumption].
Qed.

Lemma newGuess_from_well_shaped (guesses : list TWord) (word : string) :
  Forall well_shaped (newGuess_from guesses 0 (split word)).
Proof.
  apply List.Forall_forall. intros letter Hin.
  apply In_nth_error in Hin. destruct Hin as [p Hp].
  pose proof (newGuess_from_state guesses (split word) 0 p letter Hp) as Hs.
  assert (Hc : nth_error (split word) p = Some (character letter)).
  { rewrite <- (newGuess_from_characters guesses (split word) 0).
    rewrite nth_error_map, Hp. reflexivity. }
  unfold split in Hc. rewrite nth_error_map in Hc.
  destruct (nth_error (list_ascii_of_string word) p) as [c|]; [|discriminate].
  injection Hc as Hc. split.
  - rewrite <- Hc. simpl. lia.
  - rewrite Hs. unfold state_labels.
    destruct (correctAtThisPosition _ _ _); simpl; tauto.
Qed.

Lemma on_guess_well_shaped (key : nat) (handler : TWord -> option TWord)
      (st : State) :
  (forall word word', Forall well_shaped word -> handler word = Some word' ->
                      Forall well_shaped word') ->
  Forall (Forall well_shaped) (guesses st) ->
  Forall (Forall well_shaped) (guesses (on_guess key handler st)).
Proof.
  intros Hh Hall. unfold on_guess.
  destruct (nth_error (guesses st) key) as [word|] eqn:E; [|exact Hall].
  destruct (handler word) as [word'|] eqn:E'; [|exact Hall]. simpl.
  apply Forall_insert; [exact Hall|].
  apply (Hh word word'); [|exact E'].
  apply nth_error_In in E.
  exact (proj1 (List.Forall_forall _ _) Hall word E).
Qed.

Lemma cycleLetterState_well_shaped (index : nat) (word word' : TWord) :
  Forall well_shaped word -> cycleLetterState index word = Some word' ->
  Forall well_shaped word'.
Proof.
  intros Hall H.
  destruct (nth_error word index) as [letter|] eqn:E;
    [|unfold cycleLetterState in H; rewrite E in H; discriminate].
  rewrite (cycleLetterState_Some index word letter E) in H. injection H as <-.
  apply Forall_insert; [exact Hall|].
  apply nth_error_In in E.
  destruct (proj1 (List.Forall_forall _ _) Hall letter E) as [Hc _].
  split; [exact Hc|]. unfold state_labels. simpl.
  repeat match goal with |- context [if ?b then _ else _] => destruct b end;
    tauto.
Qed.

Lemma handleInput_well_shaped (index : nat) (value : string)
      (word word' : TWord) :
  Forall well_shaped word -> handleInput index value word = Some word' ->
  Forall well_shaped word'.
Proof.
  intros Hall H. unfold handleInput in H.
  destruct (0 <? String.length value); [|injection H as <-; exact Hall].
  destruct (last_unit value) as [c|]; [|injection H as <-; exact Hall].
  destruct (is_upper c); [|injection H as <-; exact Hall].
  destruct (nth_error word index) as [old|] eqn:E; [|discriminate].
  injection H as <-. apply Forall_insert; [exact Hall|].
  apply nth_error_In in E.
  destruct (proj1 (List.Forall_forall _ _) Hall old E) as [_ Hs].
  split; [simpl; lia | exact Hs].
Qed.

Lemma ui_handle_well_shaped (e : UiEvent) (st : State) :
  Forall (Forall well_shaped) (guesses st) ->
  Forall (Forall well_shaped) (guesses (ui_handle e st)).
Proof.
  intros Hall.
  destruct e as [[|index|pending response| |possibleWords|word]
                |key index|key index value]; simpl.
  - unfold addGuess. destruct (negb (allFilled st)); simpl; [exact Hall|].
    apply Forall_app. split; [exact Hall|].
    constructor; [apply well_shaped_blank | constructor].
  - destruct (nth_error (guesses st) index) as [g|] eqn:E.
    + rewrite (deleteGuess_guesses index st g E).
      apply remove_at_Forall, Hall.
    + unfold deleteGuess. rewrite E. exact Hall.
  - destruct response as [possibleWords|]; simpl; [|exact Hall].
    destruct (includes possibleWords (deletedWord pending)); exact Hall.
  - unfold handleSubmit. destruct (negb (allFilled st)); exact Hall.
  - exact Hall.
  - unfold addWordAsGuess.
    destruct (5 <=? List.length (guesses st)); simpl; [exact Hall|].
    apply Forall_app. split; [exact Hall|].
    constructor; [apply newGuess_from_well_shaped | constructor].
  - apply on_guess_well_shaped; [|exact Hall].
    intros w w'. apply cycleLetterState_well_shaped.
  - apply on_guess_well_shaped; [|exact Hall].
    intros w w'. apply handleInput_well_shaped.
Qed.

(** X15. However the user drives the page, every letter it holds has a
    character of at most one code unit and a label that
    [LetterStateSchema] accepts: the schema's length-above-one and
    unknown-label rejections never fire on the page's own guesses. *)
Theorem ui_letters_well_shaped (st : State) :
  ui_reachable st ->
  forall guess letter,
    In guess (guesses st) -> In letter guess ->
    String.length (character letter) <= 1
    /\ LetterStateSchema (state letter) = Some (state letter).
Proof.
  intros Hreach.
  assert (Hall : Forall (Forall well_shaped) (guesses st)).
  { induction Hreach as [|e st _ IH _].
    - constructor; [apply well_shaped_blank | constructor].
    - apply ui_handle_well_shaped, IH. }
  intros guess letter Hg Hl.
  pose proof (proj1 (List.Forall_forall _ _) Hall guess Hg) as Hguess.
  destruct (proj1 (List.Forall_forall _ _) Hguess letter Hl) as [Hc Hs].
  split; [exact Hc|]. apply LetterStateSchema_Some. auto.
Qed.

Lemma ui_letters_well_shaped_witness :
  guesses (ui_handle (CycleLetterState 0 0)
                     (ui_handle (HandleInput 0 0 "Q") initial))
  = [mkTLetter "Q" "unknown" :: repeat (mkTLetter "" "absent") 4]
  /\ String.length (character (mkTLetter "Q" "unknown")) <= 1
  /\ LetterStateSchema (state (mkTLetter "Q" "unknown")) = Some "unknown".
Proof.
  split; [reflexivity|].
  apply (ui_letters_well_shaped
           (ui_handle (CycleLetterState 0 0)
                      (ui_handle (HandleInput 0 0 "Q") initial))
           (ui_reachable_step (CycleLetterState 0 0) _
              (ui_reachable_step (HandleInput 0 0 "Q") initial
                                 ui_reachable_initial eq_refl) eq_refl)
           (mkTLetter "Q" "unknown" :: repeat (mkTLetter "" "absent") 4)
           (mkTLetter "Q" "unknown")).
  - left. reflexivity.
  - left. reflexivity.
Defined.

End UiInvariants.

(** ** Submitting and undoing *)

Section SubmitFacts.
Import Frontend.

Lemma valid_guesses_allFilled (st : State) :
  Forall valid_guess (guesses st) -> allFilled st = true.
Proof.
  unfold allFilled.
  induction 1 as [|g gs [_ Hg] _ IH]; simpl; [reflexivity|].
  rewrite (valid_guess_filled g Hg), IH. reflexivity.
Qed.

(** X16. On a page whose guesses all have five letters, each a single
    [a-zA-Z] character with one of the four labels, [handleSubmit] shows
    no alert and invokes the command once, with the guesses in lower case
    and their labels as they are. *)
Theorem handleSubmit_valid (st : State) :
  Forall valid_guess (guesses st) ->
  handleSubmit st
  = (st, [Invoke "filter_word_list_command"
                 (Some (map (map normalize) (guesses st)))]).
Proof.
  intros Hv. unfold handleSubmit.
  rewrite (valid_guesses_allFilled st Hv), (GuessesSchema_valid _ Hv).
  reflexivity.
Qed.

Lemma handleSubmit_valid_witness :
  handleSubmit (mkState [[mkTLetter "C" "correct"; mkTLetter "R" "unknown";
                          mkTLetter "A" "absent"; mkTLetter "N" "misplaced";
                          mkTLetter "E" "absent"]] [])
  = (mkState [[mkTLetter "C" "correct"; mkTLetter "R" "unknown";
               mkTLetter "A" "absent"; mkTLetter "N" "misplaced";
               mkTLetter "E" "absent"]] [],
     [Invoke "filter_word_list_command"
             (Some [[mkTLetter "c" "correct"; mkTLetter "r" "unknown";
                     mkTLetter "a" "absent"; mkTLetter "n" "misplaced";
                     mkTLetter "e" "absent"]])]).
Proof.
  apply (handleSubmit_valid
           (mkState [[mkTLetter "C" "correct"; mkTLetter "R" "unknown";
                      mkTLetter "A" "absent"; mkTLetter "N" "misplaced";
                      mkTLetter "E" "absent"]] [])).
  repeat constructor; simpl; tauto.
Defined.

(** X17. "Add Guess" followed by deleting the guess it added brings the
    page back without asking the command anything: the deleted guess is
    blank, so there is no word to ask about. *)
Theorem addGuess_then_delete (st : State) :
  allFilled st = true ->
  deleteGuess (List.length (guesses st)) (fst (addGuess st)) = (st, None).
Proof.
  intros Hfilled. unfold addGuess. rewrite Hfilled. simpl.
  unfold deleteGuess. simpl.
  rewrite nth_error_app2 by lia. rewrite Nat.sub_diag. simpl.
  rewrite remove_at_last. destruct st; reflexivity.
Qed.

Lemma addGuess_then_delete_witness :
  deleteGuess 1 (fst (addGuess (mkState [repeat (mkTLetter "A" "absent") 5]
                                        ["alone"])))
  = (mkState [repeat (mkTLetter "A" "absent") 5] ["alone"], None).
Proof.
  apply (addGuess_then_delete
           (mkState [repeat (mkTLetter "A" "absent") 5] ["alone"])).
  reflexivity.
Defined.

End SubmitFacts.
